(** * Whisper demonstration scripts: shallow embedding and verification

    The repository holds two Python scripts,
    [1_basic_call_english_only.py] and [1_multiple_languages.py].  Each one
    downloads an audio file with [urllib.request.urlretrieve] and calls the
    [whisper] library on it.  The only computation the scripts do themselves
    is [max(language_probs, key=language_probs.get)]; everything else is a
    sequence of calls into external code.

    The embedding has three layers:
    - Python values and builtins used by the scripts ([dict], [max],
      subscripting), with the exceptions they raise;
    - a program type [prog] whose nodes are the calls into external code,
      and an interpreter [run] that executes a program against an arbitrary
      environment and records the trace of calls;
    - the two scripts and their functions, transcribed statement by
      statement. *)

From Stdlib Require Import QArith Qcanon.
From stdpp Require Import base decidable option list numbers strings gmap.

Set Default Proof Using "Type".
Local Open Scope string_scope.
Local Open Scope list_scope.

(** ** Python values, dictionaries, exceptions *)

Module Py.

(** Exceptions.  [ValueError], [TypeError] and [KeyError] are the ones the
    builtins used by the scripts raise; [LibraryError] stands for any other
    exception class raised inside [urllib] or [whisper]. *)
Inductive exn : Type :=
| ValueError (msg : string)
| TypeError (msg : string)
| KeyError (key : string)
| LibraryError (class_name msg : string).

#[global] Instance exn_eq_dec : EqDecision exn.
Proof. solve_decision. Defined.

(** A Python [dict] with string keys, in iteration (insertion) order. *)
Abbreviation dict V := (list (string * V)).

(** [iter(d)]: the keys, in iteration order. *)
Definition dict_keys {V} (d : dict V) : list string := d.*1.

(** [d.get(k)]: the value bound to [k], or [None]. *)
Fixpoint dict_get {V} (d : dict V) (k : string) : option V :=
  match d with
  | [] => None
  | (k', v) :: d' => if decide (k' = k) then Some v else dict_get d' k
  end.

(** [d[k]]: the value bound to [k]; [KeyError] when there is none. *)
Definition dict_getitem {V} (d : dict V) (k : string) : exn + V :=
  match dict_get d k with
  | Some v => inr v
  | None => inl (KeyError k)
  end.

(** Values stored in the dictionary [model.transcribe] returns: strings
    (["text"], ["language"]), numbers, lists (["segments"]) and nested
    dictionaries. *)
#[local] Unset Elimination Schemes.
Inductive pyval : Type :=
| PStr (s : string)
| PNum (q : Qc)
| PList (l : list pyval)
| PDict (d : list (string * pyval)).
#[local] Set Elimination Schemes.

(** A probability is a finite float; finite floats are rationals and
    Python's [>] on them is the order of the rationals they denote.
    The result of [d.get] is [None] or a float: [option Qc]. *)
Abbreviation prob := Qc.

(** [val > maxval] on results of [dict.get]: ordering [None] against
    anything raises [TypeError]. *)
Definition py_gt (x y : option prob) : exn + bool :=
  match x, y with
  | Some a, Some b => inr (bool_decide (b < a)%Qc)
  | _, _ => inl (TypeError "'>' not supported between instances")
  end.

Section max.
Context {K : Type} (key : K → option prob).

(** The loop of the builtin [max(iterable, key=...)]: the running
    maximum is replaced only by an item whose key compares strictly
    greater. *)
Fixpoint max_loop (it : list K) (maxitem : K) (maxval : option prob)
  : exn + K :=
  match it with
  | [] => inr maxitem
  | item :: it' =>
      let val := key item in
      match py_gt val maxval with
      | inl e => inl e
      | inr true => max_loop it' item val
      | inr false => max_loop it' maxitem maxval
      end
  end.

(** [max(iterable, key=key)]. *)
Definition py_max (iterable : list K) : exn + K :=
  match iterable with
  | [] => inl (ValueError "max() arg is an empty sequence")
  | item :: it => max_loop it item (key item)
  end.
End max.

End Py.
Import Py.

(** ** Language selection: [max(language_probs, key=language_probs.get)] *)

Definition select_language (language_probs : dict Qc) : exn + string :=
  py_max (dict_get language_probs) (dict_keys language_probs).

(** ** Calls into external code

    [urllib.request] and [whisper] are not part of the repository.  Their
    objects are opaque to the scripts, which only pass them on, read the
    attributes [model.device] and [result.text], and print them. *)

Class Extern : Type := {
  Model : Type;            (* whisper.Whisper, from whisper.load_model *)
  Device : Type;           (* torch.device *)
  Audio : Type;            (* the sample array of whisper.load_audio *)
  Mel : Type;              (* the tensor of whisper.log_mel_spectrogram *)
  Tokens : Type;           (* first component of model.detect_language *)
  Options : Type;          (* whisper.DecodingOptions *)
  DecodingResult : Type;   (* whisper.DecodingResult *)
  model_device : Model → Device;          (* model.device *)
  result_text : DecodingResult → string;  (* result.text *)
}.

(** Keyword arguments the scripts pass to [model.transcribe]; [None] is a
    keyword left out. *)
Record transcribe_kwargs : Type := {
  kw_verbose : option bool;
  kw_language : option string;
  kw_task : option string;
}.

Definition no_kwargs : transcribe_kwargs :=
  {| kw_verbose := None; kw_language := None; kw_task := None |}.

(** What the scripts hand to [print]. *)
Inductive printable `{Extern} : Type :=
| Obj_val (v : pyval)
| Obj_decoding (r : DecodingResult).

(** One constructor per external function or method the scripts call,
    indexed by the type of what it returns.  [urlretrieve] returns a pair
    (filename, headers) that both scripts discard. *)
Inductive call `{Extern} : Type → Type :=
| urlretrieve (url filename : string) : call unit
| load_model (name : string) : call Model
| transcribe (model : Model) (audio : string) (kw : transcribe_kwargs)
  : call (dict pyval)
| load_audio (file : string) : call Audio
| pad_or_trim (array : Audio) : call Audio
| log_mel_spectrogram (audio : Audio) : call Mel
| tensor_to (t : Mel) (device : Device) : call Mel
| detect_language (model : Model) (mel : Mel) : call (Tokens * dict Qc)
| DecodingOptions (language task : string) : call Options
| decode (model : Model) (mel : Mel) (options : Options) : call DecodingResult
| print (x : printable) : call unit.

(** The name of the function called, without its arguments. *)
Inductive name : Type :=
| N_urlretrieve | N_load_model | N_transcribe | N_load_audio | N_pad_or_trim
| N_log_mel_spectrogram | N_to | N_detect_language | N_DecodingOptions
| N_decode | N_print.

#[global] Instance name_eq_dec : EqDecision name.
Proof. solve_decision. Defined.

Definition call_name `{Extern} {R} (c : call R) : name :=
  match c with
  | urlretrieve _ _ => N_urlretrieve
  | load_model _ => N_load_model
  | transcribe _ _ _ => N_transcribe
  | load_audio _ => N_load_audio
  | pad_or_trim _ => N_pad_or_trim
  | log_mel_spectrogram _ => N_log_mel_spectrogram
  | tensor_to _ _ => N_to
  | detect_language _ _ => N_detect_language
  | DecodingOptions _ _ => N_DecodingOptions
  | decode _ _ _ => N_decode
  | print _ => N_print
  end.

(** ** Programs

    A program returns, raises, calls external code and continues with what
    the call returned, or runs a body under [try ... except]. *)
Inductive prog `{Extern} : Type → Type :=
| Ret {A} (a : A) : prog A
| Raise {A} (e : exn) : prog A
| Call {A R} (c : call R) (k : R → prog A) : prog A
| Try {A B} (body : prog B) (handler : exn → prog B) (k : B → prog A)
  : prog A.

Fixpoint bind `{Extern} {A B} (p : prog A) (f : A → prog B) : prog B :=
  match p with
  | Ret a => λ f, f a
  | Raise e => λ _, Raise e
  | Call c k => λ f, Call c (λ r, bind (k r) f)
  | Try b h k => λ f, Try b h (λ r, bind (k r) f)
  end f.

#[global] Instance prog_ret `{Extern} : MRet prog := @Ret _.
#[global] Instance prog_bind `{Extern} : MBind prog := λ A B f p, bind p f.

(** A single call. *)
Definition perform `{Extern} {R} (c : call R) : prog R := Call c Ret.

(** The result of a builtin: its value, or the exception raised. *)
Definition lift `{Extern} {A} (r : exn + A) : prog A :=
  match r with
  | inl e => Raise e
  | inr a => Ret a
  end.

(** ** Running a program in an environment

    The environment answers every call with a value or an exception and
    moves to a new state.  [run] records each call with its answer. *)
Inductive entry `{Extern} : Type :=
| Entry {R} (c : call R) (answer : exn + R).

Record execution `{Extern} (W A : Type) : Type := Execution {
  trace : list entry;
  outcome : exn + A;
  final : W;
}.
Arguments Execution {_ _ _} _ _ _.
Arguments trace {_ _ _} _.
Arguments outcome {_ _ _} _.
Arguments final {_ _ _} _.

Section run.
Context `{Extern} {W : Type}.
Variable handle : ∀ R, call R → W → (exn + R) * W.

Definition after {A} (t : list entry) (x : execution W A) : execution W A :=
  Execution (t ++ trace x) (outcome x) (final x).

Fixpoint run {A} (p : prog A) (w : W) : execution W A :=
  match p with
  | Ret a => Execution [] (inr a) w
  | Raise e => Execution [] (inl e) w
  | Call c k =>
      match handle _ c w with
      | (inl e, w') => Execution [Entry c (inl e)] (inl e) w'
      | (inr v, w') => after [Entry c (inr v)] (run (k v) w')
      end
  | Try body handler k =>
      let b := run body w in
      match outcome b with
      | inr v => after (trace b) (run (k v) (final b))
      | inl e =>
          let h := run (handler e) (final b) in
          match outcome h with
          | inr v => after (trace b ++ trace h) (run (k v) (final h))
          | inl e' => Execution (trace b ++ trace h) (inl e') (final h)
          end
      end
  end.
End run.

(** *** Reading traces *)

Definition entry_name `{Extern} (e : entry) : name :=
  match e with Entry c _ => call_name c end.

Definition names `{Extern} (t : list entry) : list name := entry_name <$> t.

(** The exception an entry ended with, if any. *)
Definition raised `{Extern} (e : entry) : option exn :=
  match e with
  | Entry _ (inl x) => Some x
  | Entry _ (inr _) => None
  end.

(** The downloads in a trace: URL and destination of each. *)
Definition fetch_of `{Extern} (e : entry) : option (string * string) :=
  match e with
  | Entry (urlretrieve url filename) _ => Some (url, filename)
  | Entry _ _ => None
  end.

Definition fetches `{Extern} (t : list entry) : list (string * string) :=
  omap fetch_of t.

(** The task an entry asks for, where the call has a task argument. *)
Definition entry_task `{Extern} (e : entry) : option string :=
  match e with
  | Entry (DecodingOptions _ task) _ => Some task
  | Entry (transcribe _ _ kw) _ => kw_task kw
  | Entry _ _ => None
  end.

(** The probability mappings [model.detect_language] returned. *)
Definition detection_of `{Extern} (e : entry) : option (dict Qc) :=
  match e with
  | Entry c answer =>
      match c in call R return exn + R → option (dict Qc) with
      | detect_language _ _ =>
          λ answer, match answer with
                    | inr (_, language_probs) => Some language_probs
                    | inl _ => None
                    end
      | _ => λ _, None
      end answer
  end.

Definition detected_probs `{Extern} (t : list entry) : list (dict Qc) :=
  omap detection_of t.

(** The languages passed to [whisper.DecodingOptions]. *)
Definition language_of `{Extern} (e : entry) : option string :=
  match e with
  | Entry (DecodingOptions language _) _ => Some language
  | Entry _ _ => None
  end.

Definition requested_languages `{Extern} (t : list entry) : list string :=
  omap language_of t.

(** The arguments of [print]. *)
Definition printed_of `{Extern} (e : entry) : option printable :=
  match e with
  | Entry (print x) _ => Some x
  | Entry _ _ => None
  end.

Definition printed `{Extern} (t : list entry) : list printable :=
  omap printed_of t.

(** Programs without [try ... except]. *)
Inductive no_try `{Extern} : ∀ {A}, prog A → Prop :=
| no_try_Ret {A} (a : A) : no_try (Ret a)
| no_try_Raise {A} (e : exn) : no_try (@Raise _ A e)
| no_try_Call {A R} (c : call R) (k : R → prog A) :
    (∀ r, no_try (k r)) → no_try (Call c k).

(** The steps of the manual pipeline, in the order the spec lists them. *)
Definition pipeline : list name :=
  [N_load_audio; N_pad_or_trim; N_log_mel_spectrogram; N_detect_language;
   N_DecodingOptions; N_decode].

(** An execution in which every exception an external call raised ended
    the run there and is, unchanged, the outcome of the run. *)
Definition propagates `{Extern} {W A} (r : execution W A) : Prop :=
  ∀ pre e post x,
    trace r = pre ++ e :: post → raised e = Some x →
    post = [] ∧ outcome r = inl x.

(** ** [1_basic_call_english_only.py] *)

Module BasicCallEnglishOnly.
Section script.
Context `{Extern}.

Definition AUDIO_URL : string :=
  "https://github.com/fenago/whisper/raw/refs/heads/main/test_audio_files/terrible_quality.mp3".
Definition AUDIO_FILE : string := "terrible_quality.mp3".

(** [def get_transcription(audio_file)], with the module-level [MODEL]
    it reads as a parameter. *)
Definition get_transcription (MODEL : Model) (audio_file : string)
  : prog (dict pyval) :=
  result ← perform (transcribe MODEL audio_file no_kwargs);
  perform (print (Obj_val (PDict result)));;
  mret result.

(** The module body, top to bottom. *)
Definition script : prog unit :=
  MODEL ← perform (load_model "medium.en");
  perform (urlretrieve AUDIO_URL AUDIO_FILE);;
  get_transcription MODEL AUDIO_FILE;;
  mret ().
End script.
End BasicCallEnglishOnly.

(** ** [1_multiple_languages.py] *)

Module MultipleLanguages.
Section script.
Context `{Extern}.

Definition AUDIO_URL : string :=
  "https://github.com/fenago/whisper/raw/refs/heads/main/test_audio_files/dutch_the_netherlands.mp3".
Definition AUDIO_FILE : string := "dutch_the_netherlands.mp3".

(** [def detect_language_and_transcribe(audio_file)], with the
    module-level [model] it reads as a parameter. *)
Definition detect_language_and_transcribe (model : Model)
    (audio_file : string) : prog string :=
  audio ← perform (load_audio audio_file);
  audio ← perform (pad_or_trim audio);
  mel ← (t ← perform (log_mel_spectrogram audio);
         perform (tensor_to t (model_device model)));
  '(_, language_probs) ← perform (detect_language model mel);
  language ← lift (select_language language_probs);
  perform (print (Obj_val (PStr ("Detected language: " ++ language)%string)));;
  options ← perform (DecodingOptions language "transcribe");
  result ← perform (decode model mel options);
  perform (print (Obj_decoding result));;
  mret (result_text result).

(** The module body, top to bottom.  The [def] only binds a name, and
    the two calls after it are commented out in the source. *)
Definition script : prog unit :=
  perform (urlretrieve AUDIO_URL AUDIO_FILE);;
  model ← perform (load_model "medium");
  result ← perform (transcribe model AUDIO_FILE
                      {| kw_verbose := Some true;
                         kw_language := Some "nl";
                         kw_task := Some "translate" |});
  text ← lift (dict_getitem result "text");
  perform (print (Obj_val text)).
End script.
End MultipleLanguages.

(** ** Orderings and results the specification speaks of *)

(** The file path a call reads audio from. *)
Definition consumed_file `{Extern} (e : entry) : option string :=
  match e with
  | Entry (transcribe _ audio _) _ => Some audio
  | Entry (load_audio file) _ => Some file
  | Entry _ _ => None
  end.

(** URL and destination of a download that returned. *)
Definition completed_fetch `{Extern} (e : entry) : option (string * string) :=
  match raised e with
  | None => fetch_of e
  | Some _ => None
  end.

(** The spectrogram a detection that returned was run on, and the one a
    decoding was asked for. *)
Definition detected_mel `{Extern} (e : entry) : option Mel :=
  match raised e with
  | None => match e with
            | Entry (detect_language _ mel) _ => Some mel
            | Entry _ _ => None
            end
  | Some _ => None
  end.

Definition decoded_mel `{Extern} (e : entry) : option Mel :=
  match e with
  | Entry (decode _ mel _) _ => Some mel
  | Entry _ _ => None
  end.

(** The Transcriber of the spec loads the model and feeds it the audio;
    the Fetcher downloads; printing belongs to neither. *)
Definition is_transcriber_step (n : name) : bool :=
  match n with
  | N_urlretrieve | N_print => false
  | _ => true
  end.

(** "Fetcher runs once, then Transcriber": in a completed run the download
    happens exactly once and no Transcriber step comes before it. *)
Definition fetch_once_before_transcriber
    (script : ∀ X : Extern, prog unit) : Prop :=
  ∀ (X : Extern) (W : Type) (handle : ∀ R, call R → W → (exn + R) * W)
    (w : W) (u : unit),
    outcome (run handle (script X) w) = inr u →
    ∃ pre post,
      names (trace (run handle (script X) w)) = pre ++ N_urlretrieve :: post ∧
      (N_urlretrieve ∉ pre ++ post) ∧
      Forall (λ n, is_transcriber_step n = false) pre.

(** "Performs explicit language detection before transcription or
    translation": in a completed run a [detect_language] call comes before
    a transcribing or decoding call. *)
Definition detects_before_transcribing
    (script : ∀ X : Extern, prog unit) : Prop :=
  ∀ (X : Extern) (W : Type) (handle : ∀ R, call R → W → (exn + R) * W)
    (w : W) (u : unit),
    outcome (run handle (script X) w) = inr u →
    ∃ pre step post,
      names (trace (run handle (script X) w)) = pre ++ step :: post ∧
      step ∈ [N_transcribe; N_decode] ∧
      N_detect_language ∈ pre.

(** A value with segment-level detail: a dictionary with a ["segments"]
    entry, as [model.transcribe] returns. *)
Definition carries_segments (v : pyval) : Prop :=
  ∃ d s, v = PDict d ∧ dict_get d "segments" = Some s.

(** A run in which some call asked for the task ["translate"]. *)
Definition asks_translation `{Extern} (t : list entry) : Prop :=
  Exists (λ e, entry_task e = Some "translate") t.

(** "In the multi-language script the result additionally contains
    segment-level detail and/or translated text", of what
    [detect_language_and_transcribe] returns. *)
Definition manual_result_has_segments_or_translation : Prop :=
  ∀ (X : Extern) (W : Type) (handle : ∀ R, call R → W → (exn + R) * W)
    (w : W) (model : Model) (audio_file text : string),
    outcome (run handle
      (MultipleLanguages.detect_language_and_transcribe model audio_file) w)
      = inr text →
    carries_segments (PStr text) ∨
    asks_translation (trace (run handle
      (MultipleLanguages.detect_language_and_transcribe model audio_file) w)).

(** ** A reference environment

    A concrete environment to run the scripts in: a network, a file
    system, the console, and fixed answers for the [whisper] calls. *)

Module World.

Definition extern : Extern := {|
  Model := string;
  Device := string;
  Audio := list Byte.byte;
  Mel := list Byte.byte;
  Tokens := unit;
  Options := string * string;
  DecodingResult := string;
  model_device := λ _, "cpu";
  result_text := λ r, r;
|}.

Record state : Type := State {
  net : gmap string (list Byte.byte);   (* what each reachable URL serves *)
  fs : gmap string (list Byte.byte);    (* the files on disk *)
  detected : dict Qc;                   (* the model's language probabilities *)
  stdout : list (@printable extern);    (* what was printed, oldest first *)
}.

(** Modelled from the spec: [urllib.request.urlretrieve] belongs to
    Python's standard library and is not among the repository's sources.
    Section 4.1: given a source URL and a destination path, retrieve the
    bytes at the URL and write them to the destination, overwriting any
    existing file; a failure propagates to the caller.  The spec leaves
    open what an unreachable URL leaves at the destination; here it
    leaves the file system as it was. *)
Definition fetch (url filename : string) (w : state)
  : (exn + unit) * state :=
  match net w !! url with
  | Some body =>
      (inr (),
       State (net w) (<[filename := body]> (fs w)) (detected w) (stdout w))
  | None => (inl (LibraryError "URLError" "unreachable"), w)
  end.

(** The audio calls fail on a path with no file. *)
Definition read_audio (file : string) (w : state)
  : exn + list Byte.byte :=
  match fs w !! file with
  | Some body => inr body
  | None => inl (LibraryError "RuntimeError" "Failed to load audio")
  end.

Definition handle (R : Type) (c : @call extern R) (w : state)
  : (exn + R) * state :=
  match c in call R return (exn + R) * state with
  | urlretrieve url filename => fetch url filename w
  | load_model name => (inr name, w)
  | transcribe model audio kw =>
      match read_audio audio w with
      | inl e => (inl e, w)
      | inr _ =>
          (inr [("text", PStr "Good morning.");
                ("segments", PList []);
                ("language", PStr (default "nl" (kw_language kw)))], w)
      end
  | load_audio file => (read_audio file w, w)
  | pad_or_trim array => (inr array, w)
  | log_mel_spectrogram audio => (inr audio, w)
  | tensor_to t _ => (inr t, w)
  | detect_language _ _ => (inr ((), detected w), w)
  | DecodingOptions language task => (inr (language, task), w)
  | decode _ _ _ => (inr "Goedemorgen.", w)
  | print x => (inr (), State (net w) (fs w) (detected w) (stdout w ++ [x]))
  end.

Definition exec {A} (p : @prog extern A) (w : state) : execution state A :=
  run handle p w.

Definition clip : list Byte.byte := [Byte.x49; Byte.x44; Byte.x33].

(** Both audio files are on the network, the disk is empty, and Dutch
    and German tie for the highest probability. *)
Definition online : state := {|
  net := {[ BasicCallEnglishOnly.AUDIO_URL := clip;
            MultipleLanguages.AUDIO_URL := clip ]};
  fs := ∅;
  detected := [("en", Q2Qc (1 # 10)); ("nl", Q2Qc (4 # 10));
               ("de", Q2Qc (4 # 10)); ("fr", Q2Qc (1 # 10))];
  stdout := [];
|}.

(** No URL is reachable. *)
Definition offline : state :=
  State ∅ (fs online) (detected online) (stdout online).

(** The audio file of the second script is on disk already. *)
Definition cached : state :=
  State ∅ {[ MultipleLanguages.AUDIO_FILE := clip ]} (detected online) [].

(** Online, with an older, different file at the destination. *)
Definition stale : state :=
  State (net online) {[ MultipleLanguages.AUDIO_FILE := [Byte.x00] ]}
    (detected online) [].

End World.

(** ** Further views of a trace *)

(** The model handle a call is made on. *)
Definition entry_model `{Extern} (e : entry) : option Model :=
  match e with
  | Entry (transcribe model _ _) _ => Some model
  | Entry (detect_language model _) _ => Some model
  | Entry (decode model _ _) _ => Some model
  | Entry _ _ => None
  end.

(** The model handle a [load_model] call returned. *)
Definition loaded_model `{Extern} (e : entry) : option Model :=
  match e with
  | Entry c answer =>
      match c in call R return exn + R → option Model with
      | load_model _ =>
          λ answer, match answer with
                    | inr model => Some model
                    | inl _ => None
                    end
      | _ => λ _, None
      end answer
  end.

(** The dictionary a [transcribe] call returned. *)
Definition transcription_of `{Extern} (e : entry) : option (dict pyval) :=
  match e with
  | Entry c answer =>
      match c in call R return exn + R → option (dict pyval) with
      | transcribe _ _ _ =>
          λ answer, match answer with
                    | inr result => Some result
                    | inl _ => None
                    end
      | _ => λ _, None
      end answer
  end.

(** ** Further environments *)

Module Variants.

(** The audio file is on disk and the model's probability mapping is
    empty. *)
Definition undecided : World.state :=
  World.State ∅ {[ MultipleLanguages.AUDIO_FILE := World.clip ]} [] [].

(** As [World.handle], except that [model.transcribe] returns a dictionary
    without a ["text"] entry. *)
Definition textless (R : Type) (c : @call World.extern R) (w : World.state)
  : (exn + R) * World.state :=
  match c in call R
        return (exn + R) * World.state → (exn + R) * World.state with
  | transcribe _ _ _ => λ _, (inr [("segments", PList [])], w)
  | _ => λ answer, answer
  end (World.handle R c w).

End Variants.

(** ** Outbound requests

    The scripts reach the network through [urlretrieve]; the [whisper]
    calls may reach it too ([whisper.load_model] downloads the checkpoint
    of a model that is not in its cache).  An environment accounts for the
    requests when its state carries a log of the URLs requested. *)

(** [requests] reads the log, and [urlretrieve] adds the URL it is given. *)
Definition logs_fetches `{Extern} {W : Type}
    (handle : ∀ R, call R → W → (exn + R) * W)
    (requests : W → list string) : Prop :=
  ∀ url filename w,
    requests (handle _ (urlretrieve url filename) w).2 = requests w ++ [url].

(** No call other than [urlretrieve] makes a request of its own. *)
Definition quiet_library `{Extern} {W : Type}
    (handle : ∀ R, call R → W → (exn + R) * W)
    (requests : W → list string) : Prop :=
  ∀ R (c : call R) w,
    call_name c ≠ N_urlretrieve → requests (handle R c w).2 = requests w.

(** "One outbound HTTP(S) GET per script, against a fixed hard-coded URL":
    in every environment that logs requests, a run that starts with an
    empty log ends with exactly one request, for that URL. *)
Definition one_outbound_get
    (script : ∀ X : Extern, prog unit) (url : string) : Prop :=
  ∀ (X : Extern) (W : Type) (handle : ∀ R, call R → W → (exn + R) * W)
    (requests : W → list string) (w : W),
    logs_fetches handle requests →
    requests w = [] →
    requests (final (run handle (script X) w)) = [url].

(** The reference environment with a request log.  With [cached] the model
    checkpoint is at hand; without, [load_model] requests it first and
    raises when it is not served. *)
Module Network.

Definition state : Type := World.state * list string.

Definition requests (s : state) : list string := s.2.

Definition checkpoint (name : string) : string :=
  ("https://checkpoints.invalid/" ++ name ++ ".pt")%string.

Definition handle (cached : bool) (R : Type) (c : @call World.extern R)
    (s : state) : (exn + R) * state :=
  match c in call R return (exn + R) * World.state → (exn + R) * state with
  | urlretrieve url _ => λ a, (a.1, (a.2, s.2 ++ [url]))
  | load_model name =>
      λ a, if cached then (a.1, (a.2, s.2))
           else match World.net s.1 !! checkpoint name with
                | Some _ => (a.1, (a.2, s.2 ++ [checkpoint name]))
                | None =>
                    (inl (LibraryError "URLError" "unreachable"),
                     (s.1, s.2 ++ [checkpoint name]))
                end
  | _ => λ a, (a.1, (a.2, s.2))
  end (World.handle R c s.1).

(** Both audio files and the checkpoint of ["medium"] are served; nothing
    has been requested yet. *)
Definition served : state :=
  (World.State (<[checkpoint "medium" := World.clip]> (World.net World.online))
     ∅ (World.detected World.online) [], []).

(** Only the audio files are served. *)
Definition audio_only : state := (World.online, []).

End Network.
(** *** Lemmas on dictionaries and [max] *)

Lemma dict_get_keys {V} (d : dict V) k :
  k ∈ dict_keys d → is_Some (dict_get d k).
Proof.
  unfold dict_keys. induction d as [|[k' v] d IH]; simpl.
  - intros Hk. by apply elem_of_nil in Hk.
  - intros Hk. case_decide as Hd; [by eexists|].
    apply elem_of_cons in Hk as [->|Hk]; [done|]. by apply IH.
Qed.

Lemma dict_get_Some_keys {V} (d : dict V) k v :
  dict_get d k = Some v → k ∈ dict_keys d.
Proof.
  unfold dict_keys. induction d as [|[k' v'] d IH]; simpl; [done|].
  case_decide as Hd; subst.
  - intros _. apply elem_of_cons. by left.
  - intros Hk. apply elem_of_cons. right. by apply IH.
Qed.

Section max_spec.
Context {K : Type} (key : K → option Qc).

(** The loop returns an item; it is the running maximum when no later
    item is strictly greater, and otherwise the first of the later items
    that carries the greatest key. *)
Lemma max_loop_spec (it : list K) :
  ∀ (m : K) (v : Qc),
    key m = Some v →
    (∀ k, k ∈ it → is_Some (key k)) →
    ∃ r vr,
      max_loop key it m (Some v) = inr r ∧ key r = Some vr ∧
      (v ≤ vr)%Qc ∧
      (∀ k vk, k ∈ it → key k = Some vk → (vk ≤ vr)%Qc) ∧
      ((r = m ∧ vr = v) ∨
       (∃ before after,
           it = before ++ r :: after ∧ (v < vr)%Qc ∧
           ∀ k vk, k ∈ before → key k = Some vk → (vk < vr)%Qc)).
Proof.
  induction it as [|item it IH]; intros m v Hm Hall; simpl.
  - exists m, v. split_and!; try done.
    + intros k vk Hk. by apply elem_of_nil in Hk.
    + by left.
  - destruct (Hall item) as [vi Hvi]; [apply elem_of_cons; by left|].
    assert (Hall' : ∀ k, k ∈ it → is_Some (key k)).
    { intros k Hk. apply Hall, elem_of_cons. by right. }
    rewrite Hvi. simpl. case_bool_decide as Hlt.
    + destruct (IH item vi Hvi Hall')
        as (r & vr & Hrun & Hr & Hle & Hmax & Hpos).
      exists r, vr. split_and!; try done.
      * apply Qclt_le_weak. by eapply Qclt_le_trans.
      * intros k vk [->|Hk]%elem_of_cons Hkv; [|by eapply Hmax].
        rewrite Hvi in Hkv. by injection Hkv as <-.
      * right. destruct Hpos as [(-> & ->)|(b & a & -> & Hlt' & Hb)].
        -- exists [], it. split_and!; try done.
           intros k vk Hk. by apply elem_of_nil in Hk.
        -- exists (item :: b), a. split_and!; try done.
           ++ by eapply Qclt_trans.
           ++ intros k vk [->|Hk]%elem_of_cons Hkv; [|by eapply Hb].
              rewrite Hvi in Hkv. by injection Hkv as <-.
    + apply Qcnot_lt_le in Hlt.
      destruct (IH m v Hm Hall')
        as (r & vr & Hrun & Hr & Hle & Hmax & Hpos).
      exists r, vr. split_and!; try done.
      * intros k vk [->|Hk]%elem_of_cons Hkv; [|by eapply Hmax].
        rewrite Hvi in Hkv. injection Hkv as <-. by eapply Qcle_trans.
      * destruct Hpos as [(-> & ->)|(b & a & -> & Hlt' & Hb)];
          [by left|right].
        exists (item :: b), a. split_and!; try done.
        intros k vk [->|Hk]%elem_of_cons Hkv; [|by eapply Hb].
        rewrite Hvi in Hkv. injection Hkv as <-.
        by eapply Qcle_lt_trans.
Qed.

(** [max] of a non-empty sequence whose keys are all numbers: the result
    splits the sequence into the items before it, all strictly smaller,
    and the items after it, none greater. *)
Lemma py_max_spec (l : list K) :
  l ≠ [] →
  (∀ k, k ∈ l → is_Some (key k)) →
  ∃ r vr before after,
    py_max key l = inr r ∧ key r = Some vr ∧
    l = before ++ r :: after ∧
    (∀ k vk, k ∈ before → key k = Some vk → (vk < vr)%Qc) ∧
    (∀ k vk, k ∈ after → key k = Some vk → (vk ≤ vr)%Qc).
Proof.
  destruct l as [|x it]; [done|]. intros _ Hall. simpl.
  destruct (Hall x) as [v Hv]; [apply elem_of_cons; by left|].
  rewrite Hv.
  destruct (max_loop_spec it x v Hv)
    as (r & vr & Hrun & Hr & Hle & Hmax & Hpos).
  { intros k Hk. apply Hall, elem_of_cons. by right. }
  destruct Hpos as [(-> & ->)|(b & a & -> & Hlt & Hb)].
  - exists x, v, [], it. split_and!; try done.
    intros k vk Hk. by apply elem_of_nil in Hk.
  - exists r, vr, (x :: b), a. split_and!; try done.
    + intros k vk [->|Hk]%elem_of_cons Hkv; [|by eapply Hb].
      rewrite Hv in Hkv. by injection Hkv as <-.
    + intros k vk Hk Hkv. eapply Hmax; [|done].
      apply elem_of_app. right. apply elem_of_cons. by right.
Qed.
End max_spec.

(** The selection on a non-empty mapping, with the position of the result
    among the keys. *)
Lemma select_language_spec (language_probs : dict Qc) :
  language_probs ≠ [] →
  ∃ lang v before after,
    select_language language_probs = inr lang ∧
    dict_get language_probs lang = Some v ∧
    dict_keys language_probs = before ++ lang :: after ∧
    (∀ k vk, k ∈ before → dict_get language_probs k = Some vk → (vk < v)%Qc) ∧
    (∀ k vk, k ∈ after → dict_get language_probs k = Some vk → (vk ≤ v)%Qc).
Proof.
  intros Hne. apply py_max_spec.
  - unfold dict_keys. by destruct language_probs.
  - apply dict_get_keys.
Qed.


(** ** Stepping through a run *)

Arguments select_language : simpl never.

(** Case analysis on the environment's answer to the next call. *)
Ltac run_call :=
  match goal with
  | |- context [?handle ?R ?c ?w] =>
      lazymatch type of c with
      | call R =>
          let e := fresh "e" in
          let v := fresh "v" in
          let w' := fresh "w" in
          let E := fresh "E" in
          destruct (handle R c w) as [[e|v] w'] eqn:E; cbn
      end
  end.

(** Answers of type [unit] are [()]. *)
Ltac units := repeat match goal with u : unit |- _ => destruct u end.

(** Closing a branch in which the membership hypothesis is about an empty
    list. *)
Ltac absurd_member :=
  let Hin := fresh "Hin" in
  intros Hin; exfalso; revert Hin; apply elem_of_nil.

(** *** Exceptions in programs without [try] *)

Section propagation.
Context `{Extern} {W : Type}.
Variable handle : ∀ R, call R → W → (exn + R) * W.

Lemma no_try_propagates {A} (p : prog A) :
  no_try p → ∀ w, propagates (run handle p w).
Proof using Type.
  induction 1 as [A a|A e|A R c k _ IH]; intros w pre e' post x; cbn.
  - by destruct pre.
  - by destruct pre.
  - destruct (handle R c w) as [[e0|v] w'] eqn:E; cbn.
    + destruct pre as [|? [|? ?]]; cbn; intros [= <- <-]; cbn.
      by intros [= ->].
    + destruct pre as [|e1 pre]; cbn.
      * by intros [= <- <-].
      * intros [= <- Htrace] Hx. by eapply IH.
Qed.

Lemma no_try_lift {A B} (x : exn + A) (k : A → prog B) :
  (∀ a, no_try (k a)) → no_try (lift x ≫= k).
Proof using Type. intros Hk. destruct x; cbn; [constructor|apply Hk]. Qed.

Ltac no_try_steps :=
  repeat first
    [ apply no_try_Ret
    | apply no_try_Raise
    | apply no_try_Call; intros ?
    | apply no_try_lift; intros ?
    | match goal with p : (_ * _)%type |- _ => destruct p end ].

Lemma no_try_get_transcription MODEL audio_file :
  no_try (BasicCallEnglishOnly.get_transcription MODEL audio_file).
Proof using Type.
  unfold BasicCallEnglishOnly.get_transcription. cbn. no_try_steps.
Qed.

Lemma no_try_detect_language_and_transcribe model audio_file :
  no_try (MultipleLanguages.detect_language_and_transcribe model audio_file).
Proof using Type.
  unfold MultipleLanguages.detect_language_and_transcribe. cbn.
  no_try_steps.
Qed.

Lemma no_try_basic_script : no_try BasicCallEnglishOnly.script.
Proof using Type.
  unfold BasicCallEnglishOnly.script, BasicCallEnglishOnly.get_transcription.
  cbn. no_try_steps.
Qed.

Lemma no_try_multi_script : no_try MultipleLanguages.script.
Proof using Type.
  unfold MultipleLanguages.script. cbn. no_try_steps.
Qed.
End propagation.

(** *** The manual pipeline *)

Section manual_mode.
Context `{Extern} {W : Type}.
Variable handle : ∀ R, call R → W → (exn + R) * W.
Variables (w : W) (model : Model) (audio_file : string).

Let r :=
  run handle
    (MultipleLanguages.detect_language_and_transcribe model audio_file) w.

(** What the function selects from a mapping that detection returned is
    announced on the console, and no other language reaches
    [DecodingOptions]. *)
Lemma selection_is_used (language_probs : dict Qc) (language : string) :
  language_probs ∈ detected_probs (trace r) →
  select_language language_probs = inr language →
  Obj_val (PStr ("Detected language: " ++ language)%string)
    ∈ printed (trace r) ∧
  (∀ l, l ∈ requested_languages (trace r) → l = language).
Proof using Type.
  subst r. unfold MultipleLanguages.detect_language_and_transcribe. cbn.
  do 5 (run_call; [absurd_member|]).
  destruct v3 as [tok probs]. cbn.
  destruct (select_language probs) as [e|lang] eqn:Hsel; cbn.
  { intros ->%list_elem_of_singleton Hl. congruence. }
  assert (Hleaf : ∀ l : string, l ∈ [lang] → l = lang).
  { by intros l ->%list_elem_of_singleton. }
  repeat run_call;
    intros ->%list_elem_of_singleton Hl;
    rewrite Hsel in Hl; injection Hl as <-;
    (split; [apply elem_of_cons; by left|]);
    try done; intros l Hin; exfalso; revert Hin; apply elem_of_nil.
Qed.
End manual_mode.

(** *** Shapes of the runs *)

Section shapes.
Context `{Extern} {W : Type}.
Variable handle : ∀ R, call R → W → (exn + R) * W.
Variable w : W.

(** A completed run of [detect_language_and_transcribe]: nine calls, each
    fed with what the one before returned. *)
Lemma manual_completed model audio_file text :
  outcome (run handle
    (MultipleLanguages.detect_language_and_transcribe model audio_file) w)
    = inr text →
  ∃ audio audio' mel mel' tok language_probs language options result,
    trace (run handle
      (MultipleLanguages.detect_language_and_transcribe model audio_file) w)
    = [Entry (load_audio audio_file) (inr audio);
       Entry (pad_or_trim audio) (inr audio');
       Entry (log_mel_spectrogram audio') (inr mel);
       Entry (tensor_to mel (model_device model)) (inr mel');
       Entry (detect_language model mel') (inr (tok, language_probs));
       Entry (print (Obj_val
                (PStr ("Detected language: " ++ language)%string)))
             (inr ());
       Entry (DecodingOptions language "transcribe") (inr options);
       Entry (decode model mel' options) (inr result);
       Entry (print (Obj_decoding result)) (inr ())] ∧
    select_language language_probs = inr language ∧
    text = result_text result.
Proof using Type.
  unfold MultipleLanguages.detect_language_and_transcribe. cbn.
  do 5 (run_call; [done|]).
  destruct v3 as [tok probs]. cbn.
  destruct (select_language probs) as [e|lang] eqn:Hsel; cbn; [done|].
  do 4 (run_call; [done|]).
  units. intros [= <-]. do 9 eexists. by split_and!.
Qed.

(** Whatever the environment answers, the calls made are an initial part
    of that sequence. *)
Lemma manual_names model audio_file :
  names (trace (run handle
    (MultipleLanguages.detect_language_and_transcribe model audio_file) w))
  `prefix_of`
  [N_load_audio; N_pad_or_trim; N_log_mel_spectrogram; N_to;
   N_detect_language; N_print; N_DecodingOptions; N_decode; N_print].
Proof using Type.
  unfold MultipleLanguages.detect_language_and_transcribe. cbn.
  do 5 (run_call; [by eexists|]).
  destruct v3 as [tok probs]. cbn.
  destruct (select_language probs) as [e|lang] eqn:Hsel; cbn;
    [by eexists|].
  repeat run_call; by eexists.
Qed.

(** The only task the function ever names is ["transcribe"]. *)
Lemma manual_tasks model audio_file :
  Forall (λ e, entry_task e ≠ Some "translate" ∧
               (entry_name e = N_DecodingOptions →
                entry_task e = Some "transcribe"))
    (trace (run handle
       (MultipleLanguages.detect_language_and_transcribe model audio_file)
       w)).
Proof using Type.
  unfold MultipleLanguages.detect_language_and_transcribe. cbn.
  do 5 (run_call; [by repeat constructor|]).
  destruct v3 as [tok probs]. cbn.
  destruct (select_language probs) as [e|lang]; cbn;
    [by repeat constructor|].
  repeat run_call; by repeat constructor.
Qed.

Lemma get_transcription_completed MODEL audio_file result :
  outcome (run handle
    (BasicCallEnglishOnly.get_transcription MODEL audio_file) w)
    = inr result →
  trace (run handle
    (BasicCallEnglishOnly.get_transcription MODEL audio_file) w)
  = [Entry (transcribe MODEL audio_file no_kwargs) (inr result);
     Entry (print (Obj_val (PDict result))) (inr ())].
Proof using Type.
  unfold BasicCallEnglishOnly.get_transcription. cbn.
  do 2 (run_call; [done|]). units. by intros [= <-].
Qed.

Lemma basic_completed u :
  outcome (run handle BasicCallEnglishOnly.script w) = inr u →
  ∃ MODEL result,
    trace (run handle BasicCallEnglishOnly.script w)
    = [Entry (load_model "medium.en") (inr MODEL);
       Entry (urlretrieve BasicCallEnglishOnly.AUDIO_URL
                BasicCallEnglishOnly.AUDIO_FILE) (inr ());
       Entry (transcribe MODEL BasicCallEnglishOnly.AUDIO_FILE no_kwargs)
             (inr result);
       Entry (print (Obj_val (PDict result))) (inr ())].
Proof using Type.
  unfold BasicCallEnglishOnly.script, BasicCallEnglishOnly.get_transcription.
  cbn. do 4 (run_call; [done|]). units. intros _.
  by do 2 eexists.
Qed.

Lemma basic_names :
  names (trace (run handle BasicCallEnglishOnly.script w))
  `prefix_of` [N_load_model; N_urlretrieve; N_transcribe; N_print].
Proof using Type.
  unfold BasicCallEnglishOnly.script, BasicCallEnglishOnly.get_transcription.
  cbn. repeat run_call; by eexists.
Qed.

Lemma multi_completed u :
  outcome (run handle MultipleLanguages.script w) = inr u →
  ∃ model result text,
    trace (run handle MultipleLanguages.script w)
    = [Entry (urlretrieve MultipleLanguages.AUDIO_URL
                MultipleLanguages.AUDIO_FILE) (inr ());
       Entry (load_model "medium") (inr model);
       Entry (transcribe model MultipleLanguages.AUDIO_FILE
                {| kw_verbose := Some true;
                   kw_language := Some "nl";
                   kw_task := Some "translate" |}) (inr result);
       Entry (print (Obj_val text)) (inr ())] ∧
    dict_get result "text" = Some text.
Proof using Type.
  unfold MultipleLanguages.script. cbn.
  do 3 (run_call; [done|]).
  unfold dict_getitem.
  destruct (dict_get v1 "text") as [text|] eqn:Htext; cbn; [|done].
  run_call; [done|]. units. intros _. do 3 eexists. by split.
Qed.

Lemma multi_names :
  names (trace (run handle MultipleLanguages.script w))
  `prefix_of` [N_urlretrieve; N_load_model; N_transcribe; N_print].
Proof using Type.
  unfold MultipleLanguages.script. cbn.
  do 3 (run_call; [by eexists|]).
  unfold dict_getitem.
  destruct (dict_get v1 "text") as [text|] eqn:Htext; cbn; [|by eexists].
  run_call; by eexists.
Qed.
End shapes.

(** *** Downloads and requests *)

Section downloads.
Context `{Extern} {W : Type}.
Variable handle : ∀ R, call R → W → (exn + R) * W.

(** The second script downloads exactly once in every run. *)
Lemma multi_fetches w :
  fetches (trace (run handle MultipleLanguages.script w)) =
    [(MultipleLanguages.AUDIO_URL, MultipleLanguages.AUDIO_FILE)].
Proof using Type.
  unfold MultipleLanguages.script. cbn.
  do 3 (run_call; [done|]).
  unfold dict_getitem.
  destruct (dict_get v1 "text") as [text|]; cbn; [|done].
  by run_call.
Qed.

(** The first script downloads exactly once, unless the model loading
    before the download raised. *)
Lemma basic_fetches w :
  fetches (trace (run handle BasicCallEnglishOnly.script w)) =
    [(BasicCallEnglishOnly.AUDIO_URL, BasicCallEnglishOnly.AUDIO_FILE)] ∨
  ∃ x, trace (run handle BasicCallEnglishOnly.script w) =
         [Entry (load_model "medium.en") (inl x)].
Proof using Type.
  unfold BasicCallEnglishOnly.script, BasicCallEnglishOnly.get_transcription.
  cbn. run_call; [right; by eexists|left].
  by repeat run_call.
Qed.

Lemma fetches_cons (e : entry) (t : list entry) :
  fetches (e :: t) = fetches [e] ++ fetches t.
Proof using Type. unfold fetches. cbn. by destruct (fetch_of e). Qed.

Variable requests : W → list string.
Hypothesis Hlogs : logs_fetches handle requests.
Hypothesis Hquiet : quiet_library handle requests.

(** One call extends the log by the URL it downloads, if it is a
    download. *)
Lemma requests_step {R} (c : call R) (w : W) (a : exn + R) :
  requests (handle R c w).2 = requests w ++ (fetches [Entry c a]).*1.
Proof using Hlogs Hquiet.
  destruct c; cbn; first [apply Hlogs | rewrite app_nil_r; by apply Hquiet].
Qed.

(** When the library is quiet, the log grows by exactly the URLs of the
    downloads in the trace. *)
Lemma requests_follow_fetches {A} (p : prog A) :
  ∀ w, requests (final (run handle p w)) =
       requests w ++ (fetches (trace (run handle p w))).*1.
Proof using Hlogs Hquiet.
  induction p as [A a|A e|A R c k IH|A B body IHb handler IHh k IHk];
    intros w.
  - cbn. by rewrite app_nil_r.
  - cbn. by rewrite app_nil_r.
  - cbn [run]. pose proof (requests_step c w) as Hs.
    destruct (handle R c w) as [[e|v] w'] eqn:E;
      cbn [after trace final outcome snd app] in *.
    + exact (Hs (inl e)).
    + rewrite (fetches_cons (Entry c (inr v))), IH, (Hs (inr v)).
      by rewrite fmap_app, app_assoc.
  - cbn [run]. pose proof (IHb w) as Hb.
    destruct (run handle body w) as [tb [e|v] wb];
      cbn [after trace final outcome] in *.
    + pose proof (IHh e wb) as Hh.
      destruct (run handle (handler e) wb) as [th [e'|v] wh];
        cbn [after trace final outcome] in *; unfold fetches in *.
      * by rewrite omap_app, fmap_app, app_assoc, <- Hb.
      * by rewrite IHk, !omap_app, !fmap_app, !app_assoc, <- Hb, <- Hh.
    + unfold fetches in *.
      by rewrite IHk, omap_app, fmap_app, app_assoc, <- Hb.
Qed.
End downloads.

(** ** Claims *)

(** C1.  In [detect_language_and_transcribe], whenever language detection
    returns a (non-empty) probability mapping, the function selects a
    language, announces it, passes no other language to the decoding
    options, and the selected language is a key of the mapping whose value
    is the maximum of the values in the mapping. *)
Theorem selected_language_has_maximum_probability
    (X : Extern) (W : Type) (handle : ∀ R, call R → W → (exn + R) * W)
    (w : W) (model : Model) (audio_file : string) (language_probs : dict Qc) :
  let r :=
    run handle
      (MultipleLanguages.detect_language_and_transcribe model audio_file) w in
  language_probs ∈ detected_probs (trace r) →
  language_probs ≠ [] →
  ∃ language v,
    select_language language_probs = inr language ∧
    Obj_val (PStr ("Detected language: " ++ language)%string)
      ∈ printed (trace r) ∧
    (∀ l, l ∈ requested_languages (trace r) → l = language) ∧
    dict_get language_probs language = Some v ∧
    (∀ k vk, dict_get language_probs k = Some vk → (vk ≤ v)%Qc).
Proof.
  intros r Hin Hne.
  destruct (select_language_spec language_probs Hne)
    as (language & v & before & after & Hsel & Hv & Hkeys & Hbefore & Hafter).
  destruct (selection_is_used handle w model audio_file _ _ Hin Hsel)
    as [Hprint Hreq].
  exists language, v. split_and!; try done.
  intros k vk Hk.
  pose proof (dict_get_Some_keys _ _ _ Hk) as Hmem.
  rewrite Hkeys in Hmem.
  apply elem_of_app in Hmem as [Hmem|Hmem].
  - apply Qclt_le_weak. by eapply Hbefore.
  - apply elem_of_cons in Hmem as [->|Hmem].
    + rewrite Hv in Hk. injection Hk as <-. apply Qcle_refl.
    + by eapply Hafter.
Qed.

Lemma selected_language_has_maximum_probability_witness :
  ∃ language v,
    select_language (World.detected World.online) = inr language ∧
    Obj_val (PStr ("Detected language: " ++ language)%string)
      ∈ printed (trace (World.exec
           (@MultipleLanguages.detect_language_and_transcribe World.extern
              "medium" MultipleLanguages.AUDIO_FILE) World.cached)) ∧
    (∀ l, l ∈ requested_languages (trace (World.exec
           (@MultipleLanguages.detect_language_and_transcribe World.extern
              "medium" MultipleLanguages.AUDIO_FILE) World.cached)) →
          l = language) ∧
    dict_get (World.detected World.online) language = Some v ∧
    (∀ k vk, dict_get (World.detected World.online) k = Some vk →
             (vk ≤ v)%Qc).
Proof.
  apply (selected_language_has_maximum_probability World.extern World.state
           World.handle World.cached "medium" MultipleLanguages.AUDIO_FILE
           (World.detected World.online)).
  - vm_compute. apply elem_of_cons. by left.
  - discriminate.
Defined.

(** C9.  The language [detect_language_and_transcribe] selects from a
    mapping returned by language detection is the first key, in iteration
    order, that carries the maximum value: every key before it has a
    strictly smaller value and no key after it has a greater one.  On a tie
    the selection therefore succeeds and yields the earliest of the tied
    keys.  The function goes on with that key: it announces it, passes no
    other language to the decoding options, and a call that returns has
    built its options from exactly that key. *)
Theorem selected_language_is_first_maximum
    (X : Extern) (W : Type) (handle : ∀ R, call R → W → (exn + R) * W)
    (w : W) (model : Model) (audio_file : string) (language_probs : dict Qc) :
  let r :=
    run handle
      (MultipleLanguages.detect_language_and_transcribe model audio_file) w in
  language_probs ∈ detected_probs (trace r) →
  language_probs ≠ [] →
  ∃ language v before after,
    select_language language_probs = inr language ∧
    Obj_val (PStr ("Detected language: " ++ language)%string)
      ∈ printed (trace r) ∧
    (∀ l, l ∈ requested_languages (trace r) → l = language) ∧
    (∀ text, outcome r = inr text →
             requested_languages (trace r) = [language]) ∧
    dict_keys language_probs = before ++ language :: after ∧
    dict_get language_probs language = Some v ∧
    (∀ k vk, k ∈ before → dict_get language_probs k = Some vk →
             (vk < v)%Qc) ∧
    (∀ k vk, k ∈ after → dict_get language_probs k = Some vk →
             (vk ≤ v)%Qc).
Proof.
  intros r Hin Hne.
  destruct (select_language_spec language_probs Hne)
    as (language & v & before & after & Hsel & Hv & Hkeys & Hbefore & Hafter).
  destruct (selection_is_used handle w model audio_file _ _ Hin Hsel)
    as [Hprint Hreq].
  exists language, v, before, after. split_and!; try done.
  intros text Hdone.
  destruct (manual_completed handle w model audio_file text Hdone)
    as (a & a' & m & m' & tok & probs & lang & opts & res
        & Htrace & Hsel' & _).
  fold r in Htrace. rewrite Htrace in Hin |- *. cbn in Hin |- *.
  apply list_elem_of_singleton in Hin as ->.
  rewrite Hsel in Hsel'. by injection Hsel' as ->.
Qed.

Lemma selected_language_is_first_maximum_witness :
  ∃ language v before after,
    select_language (World.detected World.online) = inr language ∧
    Obj_val (PStr ("Detected language: " ++ language)%string)
      ∈ printed (trace (World.exec
           (@MultipleLanguages.detect_language_and_transcribe World.extern
              "medium" MultipleLanguages.AUDIO_FILE) World.cached)) ∧
    (∀ l, l ∈ requested_languages (trace (World.exec
           (@MultipleLanguages.detect_language_and_transcribe World.extern
              "medium" MultipleLanguages.AUDIO_FILE) World.cached)) →
          l = language) ∧
    (∀ text,
       outcome (World.exec
         (@MultipleLanguages.detect_language_and_transcribe World.extern
            "medium" MultipleLanguages.AUDIO_FILE) World.cached) = inr text →
       requested_languages (trace (World.exec
         (@MultipleLanguages.detect_language_and_transcribe World.extern
            "medium" MultipleLanguages.AUDIO_FILE) World.cached))
       = [language]) ∧
    dict_keys (World.detected World.online) = before ++ language :: after ∧
    dict_get (World.detected World.online) language = Some v ∧
    (∀ k vk, k ∈ before →
             dict_get (World.detected World.online) k = Some vk →
             (vk < v)%Qc) ∧
    (∀ k vk, k ∈ after →
             dict_get (World.detected World.online) k = Some vk →
             (vk ≤ v)%Qc).
Proof.
  apply (selected_language_is_first_maximum World.extern World.state
           World.handle World.cached "medium" MultipleLanguages.AUDIO_FILE
           (World.detected World.online)).
  - vm_compute. apply elem_of_cons. by left.
  - discriminate.
Defined.

(** Dutch and German tie at 4/10 in the reference environment; Dutch comes
    first and is selected. *)
Example tie_selects_earliest_key :
  select_language
    [("en", Q2Qc (1 # 10)); ("nl", Q2Qc (4 # 10));
     ("de", Q2Qc (4 # 10)); ("fr", Q2Qc (1 # 10))] = inr "nl".
Proof. reflexivity. Qed.

(** An empty mapping has no maximum: [max] raises [ValueError]. *)
Example empty_mapping_raises :
  select_language [] = inl (ValueError "max() arg is an empty sequence").
Proof. reflexivity. Qed.

(** C3.  No repository code contains a [try]: neither script and neither
    function.  In every environment, an exception raised by any external
    call (the download or a [whisper] call) ends the run at that call and
    is, unchanged, the outcome of the run.  In particular, when the
    download raises, the script stops there with that exception. *)
Theorem failures_propagate_unmodified
    (X : Extern) (W : Type) (handle : ∀ R, call R → W → (exn + R) * W)
    (w : W) :
  let basic := run handle BasicCallEnglishOnly.script w in
  let multi := run handle MultipleLanguages.script w in
  (no_try BasicCallEnglishOnly.script ∧
   no_try MultipleLanguages.script ∧
   (∀ MODEL audio_file,
      no_try (BasicCallEnglishOnly.get_transcription MODEL audio_file)) ∧
   (∀ model audio_file,
      no_try
        (MultipleLanguages.detect_language_and_transcribe model audio_file)))
  ∧
  (propagates basic ∧
   propagates multi ∧
   (∀ MODEL audio_file,
      propagates
        (run handle
           (BasicCallEnglishOnly.get_transcription MODEL audio_file) w)) ∧
   (∀ model audio_file,
      propagates
        (run handle
           (MultipleLanguages.detect_language_and_transcribe model audio_file)
           w)))
  ∧
  (∀ x w',
     handle _ (urlretrieve MultipleLanguages.AUDIO_URL
                 MultipleLanguages.AUDIO_FILE) w = (inl x, w') →
     trace multi =
       [Entry (urlretrieve MultipleLanguages.AUDIO_URL
                 MultipleLanguages.AUDIO_FILE) (inl x)] ∧
     outcome multi = inl x)
  ∧
  (∀ MODEL w1 x w2,
     handle _ (load_model "medium.en") w = (inr MODEL, w1) →
     handle _ (urlretrieve BasicCallEnglishOnly.AUDIO_URL
                 BasicCallEnglishOnly.AUDIO_FILE) w1 = (inl x, w2) →
     trace basic =
       [Entry (load_model "medium.en") (inr MODEL);
        Entry (urlretrieve BasicCallEnglishOnly.AUDIO_URL
                 BasicCallEnglishOnly.AUDIO_FILE) (inl x)] ∧
     outcome basic = inl x).
Proof.
  intros basic multi. split_and!.
  - apply no_try_basic_script.
  - apply no_try_multi_script.
  - apply no_try_get_transcription.
  - apply no_try_detect_language_and_transcribe.
  - apply no_try_propagates, no_try_basic_script.
  - apply no_try_propagates, no_try_multi_script.
  - intros. apply no_try_propagates, no_try_get_transcription.
  - intros. apply no_try_propagates, no_try_detect_language_and_transcribe.
  - intros x w' E. subst multi. unfold MultipleLanguages.script. cbn.
    by rewrite E.
  - intros MODEL w1 x w2 E1 E2. subst basic.
    unfold BasicCallEnglishOnly.script. cbn. rewrite E1. cbn.
    by rewrite E2.
Qed.

Lemma failures_propagate_unmodified_witness :
  trace (World.exec MultipleLanguages.script World.offline) =
    [Entry (urlretrieve MultipleLanguages.AUDIO_URL
              MultipleLanguages.AUDIO_FILE)
           (inl (LibraryError "URLError" "unreachable"))] ∧
  outcome (World.exec MultipleLanguages.script World.offline) =
    inl (LibraryError "URLError" "unreachable").
Proof.
  apply (failures_propagate_unmodified World.extern World.state World.handle
           World.offline) with (w' := World.offline).
  reflexivity.
Defined.

(** C5.  In every environment, the pipeline steps
    [detect_language_and_transcribe] performs are an initial part of: load
    audio, pad-or-trim, log-mel spectrogram, detect language, construct the
    decoding options, decode.  A call that returns performs all six, once
    each and in that order, each on the result of the one before; the
    options are built from the selected language and the task
    ["transcribe"]. *)
Theorem manual_mode_step_order
    (X : Extern) (W : Type) (handle : ∀ R, call R → W → (exn + R) * W)
    (w : W) (model : Model) (audio_file : string) :
  let r :=
    run handle
      (MultipleLanguages.detect_language_and_transcribe model audio_file) w in
  filter (λ n, n ∈ pipeline) (names (trace r)) `prefix_of` pipeline ∧
  (∀ text,
     outcome r = inr text →
     filter (λ n, n ∈ pipeline) (names (trace r)) = pipeline ∧
     ∃ audio audio' mel mel' tok language_probs language options result,
       trace r =
         [Entry (load_audio audio_file) (inr audio);
          Entry (pad_or_trim audio) (inr audio');
          Entry (log_mel_spectrogram audio') (inr mel);
          Entry (tensor_to mel (model_device model)) (inr mel');
          Entry (detect_language model mel') (inr (tok, language_probs));
          Entry (print (Obj_val
                   (PStr ("Detected language: " ++ language)%string)))
                (inr ());
          Entry (DecodingOptions language "transcribe") (inr options);
          Entry (decode model mel' options) (inr result);
          Entry (print (Obj_decoding result)) (inr ())] ∧
       select_language language_probs = inr language ∧
       text = result_text result).
Proof.
  intros r. split.
  - destruct (manual_names handle w model audio_file) as [rest Hrest].
    fold r in Hrest.
    exists (filter (λ n, n ∈ pipeline) rest).
    rewrite <- filter_app, <- Hrest. reflexivity.
  - intros text Hdone.
    destruct (manual_completed handle w model audio_file text Hdone)
      as (a & a' & m & m' & tok & probs & lang & opts & res
          & Htrace & Hsel & Htext).
    fold r in Htrace. split.
    + rewrite Htrace. reflexivity.
    + by exists a, a', m, m', tok, probs, lang, opts, res.
Qed.

Lemma manual_mode_step_order_witness :
  filter (λ n, n ∈ pipeline)
    (names (trace (World.exec
       (@MultipleLanguages.detect_language_and_transcribe World.extern
          "medium" MultipleLanguages.AUDIO_FILE) World.cached)))
  = pipeline.
Proof.
  apply (manual_mode_step_order World.extern World.state World.handle
           World.cached "medium" MultipleLanguages.AUDIO_FILE)
    with (text := "Goedemorgen.").
  reflexivity.
Defined.

(** C7, as stated, fails in two ways.  The second script makes two
    requests where [load_model] has to download the checkpoint first: one
    for the checkpoint, one for the audio file.  The first script loads the
    model before it downloads; where that loading raises, the run ends
    without any request for [AUDIO_URL]. *)
Lemma scripts_do_not_make_exactly_one_get :
  ¬ one_outbound_get (@MultipleLanguages.script) MultipleLanguages.AUDIO_URL ∧
  ¬ one_outbound_get (@BasicCallEnglishOnly.script)
      BasicCallEnglishOnly.AUDIO_URL.
Proof.
  assert (Hlogs : @logs_fetches World.extern _ (Network.handle false)
                    Network.requests).
  { by intros url filename [w l]. }
  split; intros Hclaim.
  - specialize (Hclaim World.extern Network.state (Network.handle false)
                  Network.requests Network.served Hlogs eq_refl).
    vm_compute in Hclaim. discriminate Hclaim.
  - specialize (Hclaim World.extern Network.state (Network.handle false)
                  Network.requests Network.audio_only Hlogs eq_refl).
    vm_compute in Hclaim. discriminate Hclaim.
Qed.

(** C7 (amended).  The scripts' own code downloads through one call,
    [urlretrieve], always on the script's constants [AUDIO_URL] and
    [AUDIO_FILE], whatever the environment; the scripts are closed programs
    without parameters.  The second script makes that call exactly once in
    every run.  The first script makes it exactly once in every run in
    which the model loading before it returns, hence in every run that
    completes, and not at all when that loading raises.  Where no other
    call makes a request of its own, this is the only request of the run:
    the log holds [AUDIO_URL] and nothing else. *)
Theorem one_fetch_of_fixed_url_to_fixed_file
    (X : Extern) (W : Type) (handle : ∀ R, call R → W → (exn + R) * W)
    (w : W) :
  let basic := run handle BasicCallEnglishOnly.script w in
  let multi := run handle MultipleLanguages.script w in
  fetches (trace multi) =
    [(MultipleLanguages.AUDIO_URL, MultipleLanguages.AUDIO_FILE)] ∧
  (fetches (trace basic) =
     [(BasicCallEnglishOnly.AUDIO_URL, BasicCallEnglishOnly.AUDIO_FILE)] ∨
   ∃ x, trace basic = [Entry (load_model "medium.en") (inl x)]) ∧
  (∀ u, outcome basic = inr u →
        fetches (trace basic) =
          [(BasicCallEnglishOnly.AUDIO_URL,
            BasicCallEnglishOnly.AUDIO_FILE)]) ∧
  (∀ requests : W → list string,
     logs_fetches handle requests →
     quiet_library handle requests →
     requests w = [] →
     requests (final multi) = [MultipleLanguages.AUDIO_URL] ∧
     (requests (final basic) = [BasicCallEnglishOnly.AUDIO_URL] ∨
      requests (final basic) = [] ∧
      ∃ x, trace basic = [Entry (load_model "medium.en") (inl x)])).
Proof.
  intros basic multi. split_and!.
  - apply multi_fetches.
  - apply basic_fetches.
  - intros u Hdone.
    destruct (basic_completed handle w u Hdone) as (MODEL & result & Htrace).
    fold basic in Htrace. by rewrite Htrace.
  - intros requests Hlogs Hquiet Hw. split.
    + subst multi.
      rewrite (requests_follow_fetches handle requests Hlogs Hquiet), Hw.
      by rewrite multi_fetches.
    + subst basic.
      rewrite (requests_follow_fetches handle requests Hlogs Hquiet), Hw.
      destruct (basic_fetches handle w) as [Hone|[x Hnone]].
      * left. by rewrite Hone.
      * right. rewrite Hnone. split; [done|by exists x].
Qed.

Lemma one_fetch_of_fixed_url_to_fixed_file_witness :
  fetches (trace (World.exec BasicCallEnglishOnly.script World.online)) =
    [(BasicCallEnglishOnly.AUDIO_URL, BasicCallEnglishOnly.AUDIO_FILE)] ∧
  Network.requests
    (final (run (Network.handle true) MultipleLanguages.script
              Network.audio_only))
  = [MultipleLanguages.AUDIO_URL].
Proof.
  split.
  - apply (one_fetch_of_fixed_url_to_fixed_file World.extern World.state
             World.handle World.online) with (u := ()).
    reflexivity.
  - apply (one_fetch_of_fixed_url_to_fixed_file World.extern Network.state
             (Network.handle true) Network.audio_only).
    + by intros url filename [w l].
    + intros R c [w l] Hc. by destruct c.
    + reflexivity.
Defined.



(** C2.  In the reference environment, where [urlretrieve] is modelled
    from the spec: for every URL that serves some bytes and every
    destination path, the fetch step returns, the destination then holds
    exactly those bytes whatever it held before, and every other path is
    untouched.  Each script's fetch step is that call on its [AUDIO_URL]
    and [AUDIO_FILE]: after a run the file holds the bytes served at the
    URL. *)
Theorem fetch_writes_remote_bytes_over_destination :
  (∀ (url filename : string) (w : World.state) (body : list Byte.byte),
     World.net w !! url = Some body →
     let r := World.exec (perform (urlretrieve url filename)) w in
     outcome r = inr () ∧
     World.fs (final r) !! filename = Some body ∧
     (∀ other, other ≠ filename →
               World.fs (final r) !! other = World.fs w !! other)) ∧
  (∀ (w : World.state) (body : list Byte.byte),
     World.net w !! MultipleLanguages.AUDIO_URL = Some body →
     World.fs (final (World.exec MultipleLanguages.script w))
       !! MultipleLanguages.AUDIO_FILE = Some body) ∧
  (∀ (w : World.state) (body : list Byte.byte),
     World.net w !! BasicCallEnglishOnly.AUDIO_URL = Some body →
     World.fs (final (World.exec BasicCallEnglishOnly.script w))
       !! BasicCallEnglishOnly.AUDIO_FILE = Some body).
Proof.
  split_and!.
  - intros url filename w body Hbody. cbn. unfold World.fetch.
    rewrite Hbody. cbn. split_and!; [done|apply lookup_insert_eq|].
    intros other Hother. by apply lookup_insert_ne.
  - intros w body Hbody. unfold World.exec, MultipleLanguages.script. cbn.
    unfold World.fetch. rewrite Hbody. cbn.
    unfold World.read_audio. cbn. rewrite lookup_insert_eq. cbn.
    apply lookup_insert_eq.
  - intros w body Hbody.
    unfold World.exec, BasicCallEnglishOnly.script,
      BasicCallEnglishOnly.get_transcription. cbn.
    unfold World.fetch. rewrite Hbody. cbn.
    unfold World.read_audio. cbn. rewrite lookup_insert_eq. cbn.
    apply lookup_insert_eq.
Qed.

Lemma fetch_writes_remote_bytes_over_destination_witness :
  World.fs World.stale !! MultipleLanguages.AUDIO_FILE = Some [Byte.x00] ∧
  World.fs (final (World.exec MultipleLanguages.script World.stale))
    !! MultipleLanguages.AUDIO_FILE = Some World.clip.
Proof.
  split; [reflexivity|].
  apply fetch_writes_remote_bytes_over_destination.
  vm_compute. reflexivity.
Defined.

(** C4, as stated, fails on the first script: it loads the model, a
    Transcriber step, before it downloads the audio file. *)
Lemma basic_script_loads_model_before_fetch :
  ¬ fetch_once_before_transcriber (@BasicCallEnglishOnly.script).
Proof.
  intros Hclaim.
  destruct (Hclaim World.extern World.state World.handle World.online ()
              eq_refl) as (pre & post & Hnames & _ & Hpre).
  assert (Hrun :
    names (trace (run World.handle BasicCallEnglishOnly.script World.online))
    = [N_load_model; N_urlretrieve; N_transcribe; N_print])
    by (vm_compute; reflexivity).
  rewrite Hrun in Hnames.
  destruct pre as [|n pre]; [discriminate Hnames|].
  injection Hnames as <- _.
  apply Forall_cons in Hpre as [Hn _]. discriminate Hn.
Qed.

(** In a trace written out in full, a position is one of finitely many;
    the entry there either does not have the view asked about, or an
    earlier position answers for it. *)
Ltac by_position Hi Hview :=
  repeat
    (match type of Hi with
     | _ !! ?i = Some _ => destruct i as [|i]; cbn in Hi
     end;
     [injection Hi as <-; cbn in Hview; try discriminate Hview;
      try (injection Hview as <-;
           first
             [ by (exists 0; eexists; split_and!; [lia|reflexivity..])
             | by (exists 1; eexists; split_and!; [lia|reflexivity..])
             | by (exists 4; eexists; split_and!; [lia|reflexivity..]) ])
     |]);
  try discriminate Hi.

(** C4 (amended).  In every environment the second script downloads
    exactly once and the download is its first call; the first script
    downloads exactly once whenever the model loading before it returns.  A
    run that completes has made, in this order, the calls [load_model],
    [urlretrieve], [transcribe], [print] in the first script and
    [urlretrieve], [load_model], [transcribe], [print] in the second: one
    download, before which the second script does nothing and the first
    script only loads the model, a Transcriber step that takes no file
    path.  In every run, completed or not, the calls are an initial part of
    those sequences, and every call that reads audio from a file path comes
    after a download to that path has returned. *)
Theorem fetch_completes_before_file_is_consumed
    (X : Extern) (W : Type) (handle : ∀ R, call R → W → (exn + R) * W)
    (w : W) :
  let basic := run handle BasicCallEnglishOnly.script w in
  let multi := run handle MultipleLanguages.script w in
  fetches (trace multi) =
    [(MultipleLanguages.AUDIO_URL, MultipleLanguages.AUDIO_FILE)] ∧
  (fetches (trace basic) =
     [(BasicCallEnglishOnly.AUDIO_URL, BasicCallEnglishOnly.AUDIO_FILE)] ∨
   ∃ x, trace basic = [Entry (load_model "medium.en") (inl x)]) ∧
  (∀ u, outcome basic = inr u →
        names (trace basic) =
          [N_load_model; N_urlretrieve; N_transcribe; N_print]) ∧
  (∀ u, outcome multi = inr u →
        names (trace multi) =
          [N_urlretrieve; N_load_model; N_transcribe; N_print]) ∧
  names (trace basic)
    `prefix_of` [N_load_model; N_urlretrieve; N_transcribe; N_print] ∧
  head (names (trace basic)) = Some N_load_model ∧
  names (trace multi)
    `prefix_of` [N_urlretrieve; N_load_model; N_transcribe; N_print] ∧
  head (names (trace multi)) = Some N_urlretrieve ∧
  (∀ i e file,
     trace basic !! i = Some e → consumed_file e = Some file →
     ∃ j e', j < i ∧ trace basic !! j = Some e' ∧
             completed_fetch e' = Some (BasicCallEnglishOnly.AUDIO_URL, file))
  ∧
  (∀ i e file,
     trace multi !! i = Some e → consumed_file e = Some file →
     ∃ j e', j < i ∧ trace multi !! j = Some e' ∧
             completed_fetch e' = Some (MultipleLanguages.AUDIO_URL, file)).
Proof.
  intros basic multi. split_and!.
  - apply multi_fetches.
  - apply basic_fetches.
  - intros u Hdone.
    destruct (basic_completed handle w u Hdone) as (MODEL & result & Htrace).
    fold basic in Htrace. by rewrite Htrace.
  - intros u Hdone.
    destruct (multi_completed handle w u Hdone)
      as (m & result & text & Htrace & _).
    fold multi in Htrace. by rewrite Htrace.
  - apply basic_names.
  - subst basic. unfold BasicCallEnglishOnly.script. cbn. by run_call.
  - apply multi_names.
  - subst multi. unfold MultipleLanguages.script. cbn. by run_call.
  - subst basic.
    unfold BasicCallEnglishOnly.script, BasicCallEnglishOnly.get_transcription.
    cbn. repeat run_call; intros i e' file Hi Hview; by_position Hi Hview.
  - subst multi. unfold MultipleLanguages.script. cbn.
    do 3 (run_call; [intros i e' file Hi Hview; by_position Hi Hview|]).
    unfold dict_getitem.
    destruct (dict_get v1 "text") as [text|]; cbn;
      [|intros i e' file Hi Hview; by_position Hi Hview].
    run_call; intros i e' file Hi Hview; by_position Hi Hview.
Qed.

Lemma fetch_completes_before_file_is_consumed_witness :
  names (trace (World.exec BasicCallEnglishOnly.script World.online)) =
    [N_load_model; N_urlretrieve; N_transcribe; N_print] ∧
  ∃ j e', j < 2 ∧
    trace (World.exec BasicCallEnglishOnly.script World.online) !! j
      = Some e' ∧
    completed_fetch e'
      = Some (BasicCallEnglishOnly.AUDIO_URL, BasicCallEnglishOnly.AUDIO_FILE).
Proof.
  split.
  - apply (fetch_completes_before_file_is_consumed World.extern World.state
             World.handle World.online) with (u := ()).
    reflexivity.
  - pose proof (fetch_completes_before_file_is_consumed World.extern
                  World.state World.handle World.online)
      as (_ & _ & _ & _ & _ & _ & _ & _ & Hbasic & _).
    by eapply (Hbasic 2).
Defined.

(** C6, as stated, fails: a completed run of the second script calls
    [urlretrieve], [load_model], [transcribe] and [print], and never
    [detect_language]. *)
Lemma multi_script_never_detects_language :
  ¬ detects_before_transcribing (@MultipleLanguages.script).
Proof.
  intros Hclaim.
  destruct (Hclaim World.extern World.state World.handle World.online ()
              eq_refl) as (pre & step & post & Hnames & _ & Hpre).
  assert (Hrun :
    names (trace (run World.handle MultipleLanguages.script World.online))
    = [N_urlretrieve; N_load_model; N_transcribe; N_print])
    by (vm_compute; reflexivity).
  rewrite Hrun in Hnames.
  assert (Hin : N_detect_language ∈ pre ++ step :: post).
  { apply elem_of_app. by left. }
  rewrite <- Hnames in Hin.
  repeat (apply elem_of_cons in Hin as [Hin|Hin]; [discriminate Hin|]).
  by apply elem_of_nil in Hin.
Qed.

(** C6 (amended).  Whenever [detect_language_and_transcribe] is called, in
    every environment, a decoding of a spectrogram comes only after a
    [detect_language] call on that same spectrogram has returned.  The
    second script never calls the function: in every environment its run
    has no [detect_language] call, and its [transcribe] call is given the
    language ["nl"] and the task ["translate"]. *)
Theorem detection_precedes_decoding_in_manual_mode_only
    (X : Extern) (W : Type) (handle : ∀ R, call R → W → (exn + R) * W)
    (w : W) (model : Model) (audio_file : string) :
  let manual :=
    run handle
      (MultipleLanguages.detect_language_and_transcribe model audio_file) w in
  let multi := run handle MultipleLanguages.script w in
  (∀ i e mel,
     trace manual !! i = Some e → decoded_mel e = Some mel →
     ∃ j e', j < i ∧ trace manual !! j = Some e' ∧
             detected_mel e' = Some mel) ∧
  (N_detect_language ∉ names (trace multi)) ∧
  Forall (λ e, entry_name e = N_transcribe →
               ∃ m answer,
                 e = Entry (transcribe m MultipleLanguages.AUDIO_FILE
                              {| kw_verbose := Some true;
                                 kw_language := Some "nl";
                                 kw_task := Some "translate" |}) answer)
         (trace multi).
Proof.
  intros manual multi. split_and!.
  - subst manual. unfold MultipleLanguages.detect_language_and_transcribe.
    cbn.
    do 5 (run_call; [intros i e' mel Hi Hview; by_position Hi Hview|]).
    destruct v3 as [tok probs]. cbn.
    destruct (select_language probs) as [e|lang]; cbn;
      [intros i e' mel Hi Hview; by_position Hi Hview|].
    repeat run_call; intros i e' mel Hi Hview; by_position Hi Hview.
  - destruct (multi_names handle w) as [rest Hrest]. fold multi in Hrest.
    intros Hin.
    assert (Hall : N_detect_language ∈ names (trace multi) ++ rest).
    { apply elem_of_app. by left. }
    rewrite <- Hrest in Hall.
    repeat (apply elem_of_cons in Hall as [Hall|Hall]; [done|]).
    by apply elem_of_nil in Hall.
  - subst multi. unfold MultipleLanguages.script. cbn.
    assert (Hcall : ∀ m answer,
      entry_name (Entry (transcribe m MultipleLanguages.AUDIO_FILE
                           {| kw_verbose := Some true;
                              kw_language := Some "nl";
                              kw_task := Some "translate" |}) answer)
        = N_transcribe →
      ∃ m' answer',
        Entry (transcribe m MultipleLanguages.AUDIO_FILE
                 {| kw_verbose := Some true;
                    kw_language := Some "nl";
                    kw_task := Some "translate" |}) answer
        = Entry (transcribe m' MultipleLanguages.AUDIO_FILE
                   {| kw_verbose := Some true;
                      kw_language := Some "nl";
                      kw_task := Some "translate" |}) answer').
    { intros m answer _. by exists m, answer. }
    do 3 (run_call; [by repeat (constructor; [done || apply Hcall|])|]).
    unfold dict_getitem.
    destruct (dict_get v1 "text") as [text|]; cbn;
      [|by repeat (constructor; [done || apply Hcall|])].
    run_call; by repeat (constructor; [done || apply Hcall|]).
Qed.

Lemma detection_precedes_decoding_in_manual_mode_only_witness :
  ∃ j e', j < 7 ∧
    trace (World.exec
      (@MultipleLanguages.detect_language_and_transcribe World.extern
         "medium" MultipleLanguages.AUDIO_FILE) World.cached) !! j = Some e' ∧
    @detected_mel World.extern e' = Some World.clip.
Proof.
  eapply (detection_precedes_decoding_in_manual_mode_only World.extern
            World.state World.handle World.cached "medium"
            MultipleLanguages.AUDIO_FILE); reflexivity.
Defined.

(** C8, as stated, fails for [detect_language_and_transcribe]: what it
    returns is a string, not a dictionary with segments, and no call of
    the run asked for a translation. *)
Lemma manual_result_is_bare_transcribed_text :
  ¬ manual_result_has_segments_or_translation.
Proof.
  intros Hclaim.
  destruct (Hclaim World.extern World.state World.handle World.cached
              "medium" MultipleLanguages.AUDIO_FILE "Goedemorgen." eq_refl)
    as [(d & s & Hd & _)|Hexists].
  - discriminate Hd.
  - apply Exists_exists in Hexists as (e & He & Htask).
    pose proof (manual_tasks World.handle World.cached "medium"
                  MultipleLanguages.AUDIO_FILE) as Hall.
    rewrite Forall_forall in Hall.
    by destruct (Hall e He) as [Hno _].
Qed.

(** C8 (amended).  A call of [get_transcription] that returns has made one
    [MODEL.transcribe] call on the audio file path, with no keyword
    arguments, printed its result and returned that result as it is.  A
    call of [detect_language_and_transcribe] that returns has built its
    decoding options with the task ["transcribe"], decoded with them, and
    returns only the [text] attribute of the decoding result: a string,
    with no segments, from a run without any request for translation.  In
    the second script the request for a translation is the module-level
    [model.transcribe] call with task ["translate"]; of its result a
    completed run reads the ["text"] entry and prints it. *)
Theorem what_the_entry_points_return
    (X : Extern) (W : Type) (handle : ∀ R, call R → W → (exn + R) * W)
    (w : W) (model : Model) (audio_file : string) :
  let direct :=
    run handle (BasicCallEnglishOnly.get_transcription model audio_file) w in
  let manual :=
    run handle
      (MultipleLanguages.detect_language_and_transcribe model audio_file) w in
  let multi := run handle MultipleLanguages.script w in
  (∀ result,
     outcome direct = inr result →
     trace direct =
       [Entry (transcribe model audio_file no_kwargs) (inr result);
        Entry (print (Obj_val (PDict result))) (inr ())]) ∧
  (∀ text,
     outcome manual = inr text →
     (∃ audio audio' mel mel' tok language_probs language options result,
        trace manual =
          [Entry (load_audio audio_file) (inr audio);
           Entry (pad_or_trim audio) (inr audio');
           Entry (log_mel_spectrogram audio') (inr mel);
           Entry (tensor_to mel (model_device model)) (inr mel');
           Entry (detect_language model mel') (inr (tok, language_probs));
           Entry (print (Obj_val
                    (PStr ("Detected language: " ++ language)%string)))
                 (inr ());
           Entry (DecodingOptions language "transcribe") (inr options);
           Entry (decode model mel' options) (inr result);
           Entry (print (Obj_decoding result)) (inr ())] ∧
        text = result_text result) ∧
     ¬ carries_segments (PStr text) ∧
     ¬ asks_translation (trace manual)) ∧
  (∀ u,
     outcome multi = inr u →
     asks_translation (trace multi) ∧
     ∃ m result text,
       trace multi =
         [Entry (urlretrieve MultipleLanguages.AUDIO_URL
                   MultipleLanguages.AUDIO_FILE) (inr ());
          Entry (load_model "medium") (inr m);
          Entry (transcribe m MultipleLanguages.AUDIO_FILE
                   {| kw_verbose := Some true;
                      kw_language := Some "nl";
                      kw_task := Some "translate" |}) (inr result);
          Entry (print (Obj_val text)) (inr ())] ∧
       dict_get result "text" = Some text).
Proof.
  intros direct manual multi. split_and!.
  - intros result Hdone. by apply get_transcription_completed.
  - intros text Hdone. split_and!.
    + destruct (manual_completed handle w model audio_file text Hdone)
        as (a & a' & m & m' & tok & probs & lang & opts & res
            & Htrace & _ & Htext).
      by exists a, a', m, m', tok, probs, lang, opts, res.
    + by intros (d & s & Hd & _).
    + intros (e & He & Htask)%Exists_exists.
      pose proof (manual_tasks handle w model audio_file) as Hall.
      rewrite Forall_forall in Hall.
      by destruct (Hall e He) as [Hno _].
  - intros u Hdone.
    destruct (multi_completed handle w u Hdone)
      as (m & result & text & Htrace & Htext).
    fold multi in Htrace. split.
    + rewrite Htrace. unfold asks_translation.
      do 2 apply Exists_cons_tl. by apply Exists_cons_hd.
    + by exists m, result, text.
Qed.

Lemma what_the_entry_points_return_witness :
  ¬ carries_segments (PStr "Goedemorgen.") ∧
  ¬ asks_translation (trace (World.exec
      (@MultipleLanguages.detect_language_and_transcribe World.extern
         "medium" MultipleLanguages.AUDIO_FILE) World.cached)).
Proof.
  apply (what_the_entry_points_return World.extern World.state World.handle
           World.cached "medium" MultipleLanguages.AUDIO_FILE).
  reflexivity.
Defined.

(** ** Further properties of the language selection *)

(** X1.  The selection raises only on an empty mapping, and then it is the
    [ValueError] of [max]; comparing the values of the mapping's own keys
    never raises [TypeError].  On a non-empty mapping it returns one of the
    mapping's keys. *)
Theorem selection_fails_only_on_empty_mapping (language_probs : dict Qc) :
  match select_language language_probs with
  | inl e =>
      language_probs = [] ∧ e = ValueError "max() arg is an empty sequence"
  | inr language =>
      language_probs ≠ [] ∧ language ∈ dict_keys language_probs
  end.
Proof.
  destruct language_probs as [|[k v] d]; [done|].
  destruct (select_language_spec ((k, v) :: d))
    as (language & vl & before & after & Hsel & _ & Hkeys & _); [done|].
  rewrite Hsel. split; [done|]. rewrite Hkeys.
  apply elem_of_app. right. apply elem_of_cons. by left.
Qed.

(** X2.  A language whose probability is strictly greater than that of
    every other key is selected, wherever it stands in the mapping. *)
Theorem strict_winner_is_selected
    (language_probs : dict Qc) (language : string) (v : Qc) :
  dict_get language_probs language = Some v →
  (∀ k vk, k ≠ language → dict_get language_probs k = Some vk →
           (vk < v)%Qc) →
  select_language language_probs = inr language.
Proof.
  intros Hv Hwins.
  assert (Hne : language_probs ≠ []) by (by destruct language_probs).
  destruct (select_language_spec language_probs Hne)
    as (r & vr & before & after & Hsel & Hr & Hkeys & Hbefore & Hafter).
  rewrite Hsel. f_equal.
  destruct (decide (r = language)) as [|Hdiff]; [done|exfalso].
  pose proof (Hwins r vr Hdiff Hr) as Hlt.
  pose proof (dict_get_Some_keys _ _ _ Hv) as Hmem.
  rewrite Hkeys in Hmem.
  apply elem_of_app in Hmem as [Hmem|Hmem].
  - pose proof (Hbefore language v Hmem Hv) as Hlt'.
    by apply (Qclt_not_le _ _ Hlt), Qclt_le_weak.
  - apply elem_of_cons in Hmem as [->|Hmem]; [done|].
    pose proof (Hafter language v Hmem Hv) as Hle.
    by apply (Qclt_not_le _ _ Hlt).
Qed.

Lemma strict_winner_is_selected_witness :
  select_language
    [("en", Q2Qc (1 # 10)); ("de", Q2Qc (2 # 10)); ("nl", Q2Qc (7 # 10))]
  = inr "nl".
Proof.
  apply (strict_winner_is_selected _ "nl" (Q2Qc (7 # 10))).
  - reflexivity.
  - intros k vk Hk. cbn. repeat case_decide; by intros [= <-].
Defined.

(** ** Further properties of the functions and scripts *)

(** X3.  When language detection returns an empty mapping,
    [detect_language_and_transcribe] raises the [ValueError] of [max]; it
    has made the five calls up to the detection and nothing after it:
    nothing is printed, no decoding options are built, nothing is
    decoded. *)
Theorem empty_mapping_stops_manual_mode
    (X : Extern) (W : Type) (handle : ∀ R, call R → W → (exn + R) * W)
    (w : W) (model : Model) (audio_file : string) :
  let r :=
    run handle
      (MultipleLanguages.detect_language_and_transcribe model audio_file) w in
  [] ∈ detected_probs (trace r) →
  outcome r = inl (ValueError "max() arg is an empty sequence") ∧
  names (trace r) =
    [N_load_audio; N_pad_or_trim; N_log_mel_spectrogram; N_to;
     N_detect_language] ∧
  printed (trace r) = [] ∧
  requested_languages (trace r) = [].
Proof.
  cbn. unfold MultipleLanguages.detect_language_and_transcribe. cbn.
  do 5 (run_call; [absurd_member|]).
  destruct v3 as [tok probs]. cbn.
  destruct (select_language probs) as [e|lang] eqn:Hsel; cbn.
  - intros <-%list_elem_of_singleton.
    pose proof (selection_fails_only_on_empty_mapping []) as Hempty.
    rewrite Hsel in Hempty. by destruct Hempty as [_ ->].
  - assert (Hprobs : probs ≠ []).
    { pose proof (selection_fails_only_on_empty_mapping probs) as Hp.
      rewrite Hsel in Hp. by destruct Hp. }
    repeat run_call; by intros <-%list_elem_of_singleton.
Qed.

Lemma empty_mapping_stops_manual_mode_witness :
  outcome (World.exec
    (@MultipleLanguages.detect_language_and_transcribe World.extern
       "medium" MultipleLanguages.AUDIO_FILE) Variants.undecided)
  = inl (ValueError "max() arg is an empty sequence").
Proof.
  apply (empty_mapping_stops_manual_mode World.extern World.state
           World.handle Variants.undecided "medium"
           MultipleLanguages.AUDIO_FILE).
  vm_compute. apply elem_of_cons. by left.
Defined.

(** X4.  [detect_language_and_transcribe] raises for one of two reasons
    only: its last call raised that exception, or detection returned an
    empty mapping and the exception is the [ValueError] of [max]. *)
Theorem manual_mode_failure_origin
    (X : Extern) (W : Type) (handle : ∀ R, call R → W → (exn + R) * W)
    (w : W) (model : Model) (audio_file : string) (x : exn) :
  let r :=
    run handle
      (MultipleLanguages.detect_language_and_transcribe model audio_file) w in
  outcome r = inl x →
  (∃ e, last (trace r) = Some e ∧ raised e = Some x) ∨
  (x = ValueError "max() arg is an empty sequence" ∧
   detected_probs (trace r) = [[]]).
Proof.
  cbn. unfold MultipleLanguages.detect_language_and_transcribe. cbn.
  do 5 (run_call; [intros [= <-]; left; by eexists|]).
  destruct v3 as [tok probs]. cbn.
  destruct (select_language probs) as [e|lang] eqn:Hsel; cbn.
  - intros [= <-]. right.
    pose proof (selection_fails_only_on_empty_mapping probs) as Hp.
    rewrite Hsel in Hp. by destruct Hp as [-> ->].
  - repeat run_call; try done; intros [= <-]; left; by eexists.
Qed.

Lemma manual_mode_failure_origin_witness :
  (∃ e, last (trace (World.exec
          (@MultipleLanguages.detect_language_and_transcribe World.extern
             "medium" MultipleLanguages.AUDIO_FILE) World.online)) = Some e ∧
        raised e = Some (LibraryError "RuntimeError" "Failed to load audio"))
  ∨
  (LibraryError "RuntimeError" "Failed to load audio"
     = ValueError "max() arg is an empty sequence" ∧
   detected_probs (trace (World.exec
     (@MultipleLanguages.detect_language_and_transcribe World.extern
        "medium" MultipleLanguages.AUDIO_FILE) World.online)) = [[]]).
Proof.
  apply (manual_mode_failure_origin World.extern World.state World.handle
           World.online "medium" MultipleLanguages.AUDIO_FILE).
  reflexivity.
Defined.



(** X6.  The second script raises for one of two reasons only: its last
    call raised that exception, or [model.transcribe] returned a dictionary
    without a ["text"] entry and the exception is the [KeyError] for that
    key. *)
Theorem multi_script_failure_origin
    (X : Extern) (W : Type) (handle : ∀ R, call R → W → (exn + R) * W)
    (w : W) (x : exn) :
  let r := run handle MultipleLanguages.script w in
  outcome r = inl x →
  (∃ e, last (trace r) = Some e ∧ raised e = Some x) ∨
  (x = KeyError "text" ∧
   ∃ e result, last (trace r) = Some e ∧
               transcription_of e = Some result ∧
               dict_get result "text" = None).
Proof.
  cbn. unfold MultipleLanguages.script. cbn.
  do 3 (run_call; [intros [= <-]; left; by eexists|]).
  unfold dict_getitem.
  destruct (dict_get v1 "text") as [text|] eqn:Htext; cbn.
  - run_call; [|done]. intros [= <-]. left. by eexists.
  - intros [= <-]. right. split; [done|]. by do 2 eexists.
Qed.

Lemma multi_script_failure_origin_witness :
  (∃ e, last (trace (run Variants.textless MultipleLanguages.script
                       World.online)) = Some e ∧
        raised e = Some (KeyError "text")) ∨
  (KeyError "text" = KeyError "text" ∧
   ∃ e result,
     last (trace (run Variants.textless MultipleLanguages.script
                    World.online)) = Some e ∧
     transcription_of e = Some result ∧
     dict_get result "text" = None).
Proof.
  apply (multi_script_failure_origin World.extern World.state
           Variants.textless World.online).
  reflexivity.
Defined.

(** X7.  The first script and [get_transcription] never raise on their
    own: whenever either raises, its last call raised that exception.  In
    particular a result without a ["text"] entry does not make them
    fail. *)
Theorem basic_script_failures_are_external
    (X : Extern) (W : Type) (handle : ∀ R, call R → W → (exn + R) * W)
    (w : W) (MODEL : Model) (audio_file : string) (x : exn) :
  let script := run handle BasicCallEnglishOnly.script w in
  let direct :=
    run handle (BasicCallEnglishOnly.get_transcription MODEL audio_file) w in
  (outcome script = inl x →
   ∃ e, last (trace script) = Some e ∧ raised e = Some x) ∧
  (outcome direct = inl x →
   ∃ e, last (trace direct) = Some e ∧ raised e = Some x).
Proof.
  cbn.
  unfold BasicCallEnglishOnly.script, BasicCallEnglishOnly.get_transcription.
  cbn. split.
  - repeat run_call; try done; intros [= <-]; by eexists.
  - repeat run_call; try done; intros [= <-]; by eexists.
Qed.

Lemma basic_script_failures_are_external_witness :
  ∃ e, last (trace (World.exec BasicCallEnglishOnly.script World.offline))
       = Some e ∧
       raised e = Some (LibraryError "URLError" "unreachable").
Proof.
  apply (basic_script_failures_are_external World.extern World.state
           World.handle World.offline "medium.en"
           BasicCallEnglishOnly.AUDIO_FILE).
  reflexivity.
Defined.

(** Closing a [Forall] over a trace written out in full, entry by entry. *)
Ltac by_entry :=
  repeat (constructor; [cbn; split_and?; by (done || (intros; simplify_eq))|]);
  try apply Forall_nil_2.

(** X8.  The two functions work only on what they are given: every call
    they make on a model is on the handle passed in, every file they read
    is the path passed in, and they neither download nor load a model. *)
Theorem functions_use_only_their_arguments
    (X : Extern) (W : Type) (handle : ∀ R, call R → W → (exn + R) * W)
    (w : W) (model : Model) (audio_file : string) :
  let direct :=
    run handle (BasicCallEnglishOnly.get_transcription model audio_file) w in
  let manual :=
    run handle
      (MultipleLanguages.detect_language_and_transcribe model audio_file) w in
  Forall (λ e, (∀ m, entry_model e = Some m → m = model) ∧
               (∀ f, consumed_file e = Some f → f = audio_file) ∧
               fetch_of e = None ∧
               entry_name e ≠ N_load_model) (trace direct) ∧
  Forall (λ e, (∀ m, entry_model e = Some m → m = model) ∧
               (∀ f, consumed_file e = Some f → f = audio_file) ∧
               fetch_of e = None ∧
               entry_name e ≠ N_load_model) (trace manual).
Proof.
  cbn. split.
  - unfold BasicCallEnglishOnly.get_transcription. cbn.
    repeat run_call; by_entry.
  - unfold MultipleLanguages.detect_language_and_transcribe. cbn.
    do 5 (run_call; [by_entry|]).
    destruct v3 as [tok probs]. cbn.
    destruct (select_language probs) as [e|lang]; cbn; [by_entry|].
    repeat run_call; by_entry.
Qed.

Lemma functions_use_only_their_arguments_witness :
  Forall (λ e, (∀ m, @entry_model World.extern e = Some m → m = "medium") ∧
               (∀ f, consumed_file e = Some f →
                     f = MultipleLanguages.AUDIO_FILE) ∧
               fetch_of e = None ∧
               entry_name e ≠ N_load_model)
    (trace (World.exec
       (@MultipleLanguages.detect_language_and_transcribe World.extern
          "medium" MultipleLanguages.AUDIO_FILE) World.cached)).
Proof.
  apply (functions_use_only_their_arguments World.extern World.state
           World.handle World.cached "medium" MultipleLanguages.AUDIO_FILE).
Defined.

(** X9.  In every environment, each script calls [model.transcribe] only
    on a handle that its own [load_model] call returned before.  The first
    script names no task in any call, so it never asks for a
    translation. *)
Theorem scripts_transcribe_with_the_loaded_model
    (X : Extern) (W : Type) (handle : ∀ R, call R → W → (exn + R) * W)
    (w : W) :
  let basic := run handle BasicCallEnglishOnly.script w in
  let multi := run handle MultipleLanguages.script w in
  (∀ i e m,
     trace basic !! i = Some e → entry_model e = Some m →
     ∃ j e', j < i ∧ trace basic !! j = Some e' ∧ loaded_model e' = Some m) ∧
  (∀ i e m,
     trace multi !! i = Some e → entry_model e = Some m →
     ∃ j e', j < i ∧ trace multi !! j = Some e' ∧ loaded_model e' = Some m) ∧
  Forall (λ e, entry_task e = None) (trace basic).
Proof.
  intros basic multi. split_and!.
  - subst basic.
    unfold BasicCallEnglishOnly.script, BasicCallEnglishOnly.get_transcription.
    cbn. repeat run_call; intros i e' m Hi Hview; by_position Hi Hview.
  - subst multi. unfold MultipleLanguages.script. cbn.
    do 3 (run_call; [intros i e' m Hi Hview; by_position Hi Hview|]).
    unfold dict_getitem.
    destruct (dict_get v1 "text") as [text|]; cbn;
      [|intros i e' m Hi Hview; by_position Hi Hview].
    run_call; intros i e' m Hi Hview; by_position Hi Hview.
  - subst basic.
    unfold BasicCallEnglishOnly.script, BasicCallEnglishOnly.get_transcription.
    cbn. repeat run_call; by repeat constructor.
Qed.

Lemma scripts_transcribe_with_the_loaded_model_witness :
  ∃ j e', j < 2 ∧
    trace (World.exec MultipleLanguages.script World.online) !! j = Some e' ∧
    @loaded_model World.extern e' = Some "medium".
Proof.
  eapply (scripts_transcribe_with_the_loaded_model World.extern World.state
            World.handle World.online); reflexivity.
Defined.

(** X10.  The scripts' own [print] calls (what [model.transcribe] writes
    to the console by itself under [verbose=True] is the library's and is
    not among them).  In every environment each script calls [print] at
    most once, and only after its [transcribe] call has returned: the first
    script passes the whole dictionary that call returned, the second
    script its ["text"] entry. *)
Theorem scripts_print_only_the_transcription
    (X : Extern) (W : Type) (handle : ∀ R, call R → W → (exn + R) * W)
    (w : W) :
  let basic := run handle BasicCallEnglishOnly.script w in
  let multi := run handle MultipleLanguages.script w in
  (∀ i e x,
     trace basic !! i = Some e → printed_of e = Some x →
     ∃ j e' result,
       j < i ∧ trace basic !! j = Some e' ∧
       transcription_of e' = Some result ∧
       x = Obj_val (PDict result)) ∧
  (∀ i e x,
     trace multi !! i = Some e → printed_of e = Some x →
     ∃ j e' result text,
       j < i ∧ trace multi !! j = Some e' ∧
       transcription_of e' = Some result ∧
       dict_get result "text" = Some text ∧
       x = Obj_val text) ∧
  (printed (trace basic) = [] ∨
   ∃ result,
     omap transcription_of (trace basic) = [result] ∧
     printed (trace basic) = [Obj_val (PDict result)]) ∧
  (printed (trace multi) = [] ∨
   ∃ result text,
     omap transcription_of (trace multi) = [result] ∧
     dict_get result "text" = Some text ∧
     printed (trace multi) = [Obj_val text]).
Proof.
  intros basic multi. split_and!.
  - subst basic.
    unfold BasicCallEnglishOnly.script, BasicCallEnglishOnly.get_transcription.
    cbn.
    repeat run_call; intros i e' x Hi Hview;
      repeat (destruct i as [|i]; cbn in Hi;
              [injection Hi as <-; cbn in Hview; try discriminate Hview|]);
      try discriminate Hi;
      injection Hview as <-; exists 2; do 2 eexists;
      (split_and!; [lia|reflexivity..]).
  - subst multi. unfold MultipleLanguages.script. cbn.
    do 3 (run_call;
          [intros i e' x Hi Hview;
           repeat (destruct i as [|i]; cbn in Hi;
                   [injection Hi as <-; cbn in Hview; discriminate Hview|]);
           discriminate Hi|]).
    unfold dict_getitem.
    destruct (dict_get v1 "text") as [text|] eqn:Htext; cbn.
    + run_call; intros i e' x Hi Hview;
        repeat (destruct i as [|i]; cbn in Hi;
                [injection Hi as <-; cbn in Hview; try discriminate Hview|]);
        try discriminate Hi;
        injection Hview as <-; exists 2; do 3 eexists;
        (split_and!; [lia|reflexivity|reflexivity|eassumption|reflexivity]).
    + intros i e' x Hi Hview;
        repeat (destruct i as [|i]; cbn in Hi;
                [injection Hi as <-; cbn in Hview; discriminate Hview|]);
        discriminate Hi.
  - subst basic.
    unfold BasicCallEnglishOnly.script, BasicCallEnglishOnly.get_transcription.
    cbn. do 3 (run_call; [by left|]).
    right. exists v1. by run_call.
  - subst multi. unfold MultipleLanguages.script. cbn.
    do 3 (run_call; [by left|]).
    unfold dict_getitem.
    destruct (dict_get v1 "text") as [text|] eqn:Htext; cbn; [|by left].
    right. exists v1, text. by run_call.
Qed.

Lemma scripts_print_only_the_transcription_witness :
  ∃ j e' result text,
    j < 3 ∧
    trace (World.exec MultipleLanguages.script World.online) !! j
      = Some e' ∧
    transcription_of e' = Some result ∧
    dict_get result "text" = Some text ∧
    @Obj_val World.extern (PStr "Good morning.") = Obj_val text.
Proof.
  pose proof (scripts_print_only_the_transcription World.extern World.state
                World.handle World.online) as (_ & Hmulti & _).
  by eapply (Hmulti 3).
Defined.
